(** * wscat: a per-session WebSocket client on top of a process-wide registry

    Shallow embedding of [src/wscat/wscat.py]: the [State] class with its
    event handlers ([on_load], [connect], [send_message],
    [update_message_buffer], [update_server_url]) and the module-level
    dictionary [_WEBSOCKETS].

    [connect] is a background task: it gives up control at every [await]
    (taking or leaving [async with self], the handshake, the next message
    of [async for]).  It is embedded as a small-step machine over a program
    counter, and a session as the interleaving of its handlers.

    The file has two parts: the definitions (the program, then the
    schedules, observations and invariants the statements are about), and
    the lemmas and theorems. *)

From stdpp Require Import gmap strings list.

Local Open Scope string_scope.
Local Open Scope list_scope.

(* ===================================================================== *)
(** ** Data model (lines 10-28) *)
(* ===================================================================== *)

(** [Literal["user", "server"]] *)
Inductive Role := user | server.

(** [class Message] *)
Record Message := mkMessage { role : Role; text : string }.

(** A [ClientConnection] of the websockets library, as far as the program
    looks at it: its [id] (rendered by [str(ws.id)]) and the uri it was
    opened on.  Whether the connection is still open is a fact of the
    network, kept apart from the handle (see [Sys]). *)
Record ClientConnection := mkConn { ws_id : string; ws_uri : string }.

(** What [async for message in ws] yields: [str] for a text frame, [bytes]
    for a binary frame. *)
Inductive Data := Str (s : string) | Bytes (b : list Byte.byte).

(** [class State(rx.State)] *)
Record State := mkState {
  server_url : string;
  message_buffer : string;
  messages : list Message;
  connected : bool;
  _websocket_id : string
}.

Definition State_default : State :=
  {| server_url := "wss://websocket-echo.com";
     message_buffer := "";
     messages := [];
     connected := false;
     _websocket_id := "" |}.

(** Attribute assignments [self.f = v]. *)
Definition set_server_url (v : string) (s : State) : State :=
  mkState v (message_buffer s) (messages s) (connected s) (_websocket_id s).
Definition set_message_buffer (v : string) (s : State) : State :=
  mkState (server_url s) v (messages s) (connected s) (_websocket_id s).
Definition set_messages (v : list Message) (s : State) : State :=
  mkState (server_url s) (message_buffer s) v (connected s) (_websocket_id s).
Definition set_connected (v : bool) (s : State) : State :=
  mkState (server_url s) (message_buffer s) (messages s) v (_websocket_id s).
Definition set_websocket_id (v : string) (s : State) : State :=
  mkState (server_url s) (message_buffer s) (messages s) (connected s) v.

(** Exceptions that can leave a handler. *)
Inductive Exn :=
  | OpenError                 (* connect(url) could not open the connection *)
  | ConnectionClosed          (* ws.send on a connection that is not open *)
  | KeyError (k : string)     (* del d[k] with k absent *)
  | ConnectionClosedError.    (* async for over a connection that was closed
                                 abnormally *)

Inductive Result (A : Type) :=
  | Ret (a : A)
  | Raise (e : Exn).
Arguments Ret {A} a.
Arguments Raise {A} e.

(** What a handler lets out of the process. *)
Inductive Effect :=
  | Delta (s : State)            (* the session state as sent to the frontend:
                                    a bare [yield], leaving [async with self],
                                    or the end of a plain event handler *)
  | ScrollTo (elem_id : string)  (* yield rx.scroll_to(elem_id) *)
  | NetConnect (uri : string)    (* connect(uri) is started *)
  | WsSend (ws : ClientConnection) (data : string)   (* ws.send(data) is called *)
  | Uncaught (e : Exn).          (* an exception leaves the handler *)

(* ===================================================================== *)
(** ** The plain event handlers *)
(* ===================================================================== *)

(** [bool(s)] of a [str] *)
Definition bool_of_str (s : string) : bool := negb (String.eqb s "").

(** line 33 *)
Definition on_load (_WEBSOCKETS : gmap string ClientConnection) (self : State) : State :=
  set_connected
    (bool_of_str (_websocket_id self)
       && bool_decide (_websocket_id self ∈ dom _WEBSOCKETS))
    self.

(** line 78 *)
Definition update_message_buffer (value : string) (self : State) : State :=
  set_message_buffer value self.

(** line 83 *)
Definition update_server_url (value : string) (self : State) : State :=
  set_server_url value self.

(* ===================================================================== *)
(** ** [send_message] (lines 59-73) *)
(* ===================================================================== *)

(** [await ws.send(data)] of the library: raises when the connection is no
    longer open.  [closed] is the set of ids of the connections that the
    network has closed. *)
Definition ws_send (closed : gset string) (ws : ClientConnection) (data : string)
  : Result unit :=
  if bool_decide (ws_id ws ∈ closed) then Raise ConnectionClosed else Ret tt.

(** The whole body runs inside one [async with self]. *)
Definition send_message (closed : gset string)
    (_WEBSOCKETS : gmap string ClientConnection) (self : State)
  : Result unit * State * list Effect :=
  let message := message_buffer self in
  let self := set_message_buffer "" self in
  let self := set_messages (messages self ++ [mkMessage user message]) self in
  let out := [Delta self; ScrollTo "messages-end"] in
  match _WEBSOCKETS !! _websocket_id self with
  | None => (Ret tt, self, out)
  | Some websocket_connection =>
      (ws_send closed websocket_connection message, self,
       out ++ [WsSend websocket_connection message])
  end.

(* ===================================================================== *)
(** ** [connect] (lines 35-57) as a resumable task *)
(* ===================================================================== *)

(** Where a [connect] task is suspended. *)
Inductive Pc :=
  | pc_reset                       (* before line 38 *)
  | pc_open                        (* before line 43 *)
  | pc_handshake (uri : string)    (* line 43, inside the handshake *)
  | pc_mark (ws : ClientConnection) (websocket_id : string)  (* before line 46 *)
  | pc_recv (ws : ClientConnection) (websocket_id : string)  (* line 49 *)
  | pc_done (websocket_id : string)                          (* after line 57 *)
  | pc_raised (e : Exn)            (* ended by an exception of line 43 or 57 *)
  | pc_recv_raised (ws : ClientConnection) (websocket_id : string).
      (* ended by the exception of line 49: line 57 was not reached *)

(** What resumes it. *)
Inductive NetIn :=
  | Tick                                    (* the lock, nothing from the network *)
  | Handshake (r : option ClientConnection) (* connect(url): a connection, or failure *)
  | Incoming (message : Data)               (* the next item of [async for] *)
  | EndOfStream                             (* [async for] is exhausted: the
                                               connection was closed normally *)
  | RecvError.                              (* [async for] raises: the connection
                                               was closed abnormally *)

Definition task_step (pc : Pc) (inp : NetIn)
    (self : State) (_WEBSOCKETS : gmap string ClientConnection)
  : option (Pc * State * gmap string ClientConnection * list Effect) :=
  match pc, inp with
  | pc_reset, Tick =>
      (* lines 38-41 *)
      let self := set_messages [] self in
      let self := set_connected false self in
      let self := set_websocket_id "" self in
      Some (pc_open, self, _WEBSOCKETS, [Delta self])
  | pc_open, Tick =>
      (* line 43: connect(self.server_url) *)
      Some (pc_handshake (server_url self), self, _WEBSOCKETS,
            [NetConnect (server_url self)])
  | pc_handshake _, Handshake None =>
      Some (pc_raised OpenError, self, _WEBSOCKETS, [Uncaught OpenError])
  | pc_handshake _, Handshake (Some ws) =>
      (* lines 44-45 *)
      let websocket_id := ws_id ws in
      Some (pc_mark ws websocket_id, self, <[websocket_id := ws]> _WEBSOCKETS, [])
  | pc_mark ws websocket_id, Tick =>
      (* lines 46-48 *)
      let self := set_connected true self in
      let self := set_websocket_id websocket_id self in
      Some (pc_recv ws websocket_id, self, _WEBSOCKETS, [Delta self])
  | pc_recv ws websocket_id, Incoming message =>
      (* lines 50-56 *)
      match message with
      | Str message =>
          let self :=
            set_messages (messages self ++ [mkMessage server message]) self in
          Some (pc_recv ws websocket_id, self, _WEBSOCKETS,
                [Delta self; ScrollTo "messages-end"])
      | Bytes _ => Some (pc_recv ws websocket_id, self, _WEBSOCKETS, [])
      end
  | pc_recv ws websocket_id, EndOfStream =>
      (* line 57 *)
      match _WEBSOCKETS !! websocket_id with
      | Some _ =>
          Some (pc_done websocket_id, self, delete websocket_id _WEBSOCKETS, [])
      | None =>
          Some (pc_raised (KeyError websocket_id), self, _WEBSOCKETS,
                [Uncaught (KeyError websocket_id)])
      end
  | pc_recv ws websocket_id, RecvError =>
      (* line 49 raises ConnectionClosedError: nothing in connect catches it,
         and line 57 is skipped *)
      Some (pc_recv_raised ws websocket_id, self, _WEBSOCKETS,
            [Uncaught ConnectionClosedError])
  | _, _ => None
  end.

(* ===================================================================== *)
(** ** One session and the process around it *)
(* ===================================================================== *)

(** The session's [State] is only touched under the session lock, so the
    blocks under [async with self] are atomic with respect to each other.
    [_WEBSOCKETS] is touched outside the lock, at lines 45 and 57; both are
    made steps of their own here.  [send_message] reads it once, at line 70,
    after two [yield]s that touch neither the registry nor the state again:
    the handler is one step, taken at the moment of that read. *)

Record Sys := mkSys {
  self : State;                              (* the session's State *)
  WEBSOCKETS : gmap string ClientConnection; (* the module's _WEBSOCKETS *)
  closed : gset string;                      (* connections the network closed *)
  tasks : list Pc                            (* the session's connect tasks *)
}.

Definition Sys_init : Sys := mkSys State_default ∅ ∅ [].

Inductive Event :=
  | EvOnLoad
  | EvUpdateMessageBuffer (value : string)
  | EvUpdateServerUrl (value : string)
  | EvSendMessage
  | EvConnect                        (* the form is submitted: a task is started *)
  | EvTask (i : nat) (inp : NetIn)   (* task i is resumed *)
  | EvNetClose (id : string).        (* the network closes connection id *)

Definition uncaught {A} (r : Result A) : list Effect :=
  match r with
  | Ret _ => []
  | Raise e => [Uncaught e]
  end.

Definition step (sys : Sys) (ev : Event) : option (Sys * list Effect) :=
  match ev with
  | EvOnLoad =>
      let s := on_load (WEBSOCKETS sys) (self sys) in
      Some (mkSys s (WEBSOCKETS sys) (closed sys) (tasks sys), [Delta s])
  | EvUpdateMessageBuffer value =>
      let s := update_message_buffer value (self sys) in
      Some (mkSys s (WEBSOCKETS sys) (closed sys) (tasks sys), [Delta s])
  | EvUpdateServerUrl value =>
      let s := update_server_url value (self sys) in
      Some (mkSys s (WEBSOCKETS sys) (closed sys) (tasks sys), [Delta s])
  | EvSendMessage =>
      let '(r, s, out) := send_message (closed sys) (WEBSOCKETS sys) (self sys) in
      Some (mkSys s (WEBSOCKETS sys) (closed sys) (tasks sys), out ++ uncaught r)
  | EvConnect =>
      Some (mkSys (self sys) (WEBSOCKETS sys) (closed sys) (tasks sys ++ [pc_reset]),
            [])
  | EvTask i inp =>
      match tasks sys !! i with
      | None => None
      | Some pc =>
          match task_step pc inp (self sys) (WEBSOCKETS sys) with
          | None => None
          | Some (pc', s, reg, out) =>
              Some (mkSys s reg (closed sys) (<[i := pc']> (tasks sys)), out)
          end
      end
  | EvNetClose id =>
      Some (mkSys (self sys) (WEBSOCKETS sys) ({[id]} ∪ closed sys) (tasks sys), [])
  end.

(** A schedule: [None] when some event is not enabled where it stands. *)
Fixpoint run (sys : Sys) (evs : list Event) : option (Sys * list Effect) :=
  match evs with
  | [] => Some (sys, [])
  | ev :: evs =>
      match step sys ev with
      | None => None
      | Some (sys', out) =>
          match run sys' evs with
          | None => None
          | Some (sys'', out') => Some (sys'', out ++ out')
          end
      end
  end.

(* ===================================================================== *)
(** ** Schedules and sample states *)
(* ===================================================================== *)

Definition ws1 : ClientConnection :=
  mkConn "6f1c0d3e-ws-1" "wss://websocket-echo.com".

(** A second handle that carries the id of [ws1]. *)
Definition ws1_again : ClientConnection :=
  mkConn (ws_id ws1) "wss://other.example".

(** One connection from the form submit to the end of [async for]:
    the schedule of a [connect] that meets [ws] and receives [incoming]. *)
Definition connect_schedule (i : nat) (ws : ClientConnection) (incoming : list Data)
  : list Event :=
  [EvConnect; EvTask i Tick; EvTask i Tick; EvTask i (Handshake (Some ws));
   EvTask i Tick]
  ++ map (fun m => EvTask i (Incoming m)) incoming
  ++ [EvNetClose (ws_id ws); EvTask i EndOfStream].

(** A connection is opened, the user types "hello", the network closes the
    connection, and the user submits before the task has seen the end of
    the stream. *)
Definition send_after_close_schedule : list Event :=
  [EvConnect; EvTask 0 Tick; EvTask 0 Tick; EvTask 0 (Handshake (Some ws1));
   EvTask 0 Tick; EvUpdateMessageBuffer "hello"; EvNetClose (ws_id ws1)].

(** The connect form is submitted and [connect(url)] fails. *)
Definition failed_connect_schedule : list Event :=
  [EvConnect; EvTask 0 Tick; EvTask 0 Tick; EvTask 0 (Handshake None)].

(** A reconnect: the session still shows the log of an earlier connection. *)
Definition sys_with_history : Sys :=
  mkSys (mkState "wss://websocket-echo.com" "draft"
           [mkMessage user "hello"; mkMessage server "hello"] true (ws_id ws1))
        ∅ {[ws_id ws1]} [pc_done (ws_id ws1); pc_reset].

(** The session a moment after [ws1] was marked connected. *)
Definition sys_listening : Sys :=
  mkSys (mkState "wss://websocket-echo.com" "" [] true (ws_id ws1))
        {[ws_id ws1 := ws1]} ∅ [pc_recv ws1 (ws_id ws1)].

(** The same session once the network has closed [ws1], before the task has
    noticed. *)
Definition sys_listening_closed : Sys :=
  mkSys (self sys_listening) (WEBSOCKETS sys_listening) {[ws_id ws1]}
        (tasks sys_listening).

(** The user sends between two arrivals, a binary frame arrives, and the
    same text arrives twice. *)
Definition chat_schedule : list Event :=
  [EvTask 0 (Incoming (Str "a")); EvUpdateMessageBuffer "ping"; EvSendMessage;
   EvTask 0 (Incoming (Bytes [])); EvTask 0 (Incoming (Str "b"));
   EvOnLoad; EvTask 0 (Incoming (Str "b"))].

(** A second handle, with an id of its own. *)
Definition ws2 : ClientConnection :=
  mkConn "a4e2b7c9-ws-2" "wss://websocket-echo.com".

(** Two connections of one session: the first is closed and its task ends,
    the form is submitted again and the second one is listening. *)
Definition reconnect_schedule : list Event :=
  connect_schedule 0 ws1 [Str "hi"]
  ++ [EvOnLoad; EvConnect; EvTask 1 Tick; EvTask 1 Tick;
      EvTask 1 (Handshake (Some ws2)); EvTask 1 Tick;
      EvTask 1 (Incoming (Str "again"))].

(** The same, and then the second connection is closed abnormally: the
    network closes it and [async for] raises. *)
Definition lost_connection_schedule : list Event :=
  reconnect_schedule ++ [EvNetClose (ws_id ws2); EvTask 1 RecvError].

(** The first connection is closed abnormally, the page is reloaded, and the
    form is submitted again: the second connection is listening. *)
Definition reconnect_after_loss_schedule : list Event :=
  [EvConnect; EvTask 0 Tick; EvTask 0 Tick; EvTask 0 (Handshake (Some ws1));
   EvTask 0 Tick; EvTask 0 (Incoming (Str "hi"));
   EvNetClose (ws_id ws1); EvTask 0 RecvError;
   EvOnLoad;
   EvConnect; EvTask 1 Tick; EvTask 1 Tick; EvTask 1 (Handshake (Some ws2));
   EvTask 1 Tick].



(** [ws1] is listening and has delivered "a"; the form is submitted again
    and the new task runs its reset; [ws1] then delivers "b". *)
Definition reconnect_during_chat_schedule : list Event :=
  [EvConnect; EvTask 0 Tick; EvTask 0 Tick; EvTask 0 (Handshake (Some ws1));
   EvTask 0 Tick;
   EvTask 0 (Incoming (Str "a"));
   EvConnect; EvTask 1 Tick;
   EvTask 0 (Incoming (Str "b"))].

(* ===================================================================== *)
(** ** Observations on logs and schedules *)
(* ===================================================================== *)

(** The texts of the server entries of a log, in log order. *)
Definition server_texts (log : list Message) : list string :=
  omap (fun m => match role m with server => Some (text m) | user => None end) log.

(** The [str] items of what the iterator produced, in order. *)
Definition str_items (incoming : list Data) : list string :=
  omap (fun d => match d with Str s => Some s | Bytes _ => None end) incoming.

(** What may happen in the session while task [i] is in its receive loop,
    short of the end of the loop and of other tasks being resumed: page
    loads, edits of the url and of the draft, sends, another submit of the
    connect form, the network closing a connection, and items arriving for
    task [i]. *)
Definition epoch_event (i : nat) (ev : Event) : bool :=
  match ev with
  | EvTask j (Incoming _) => Nat.eqb j i
  | EvTask _ _ => false
  | _ => true
  end.

(** The items that arrive in a schedule, in order of arrival. *)
Definition received (evs : list Event) : list Data :=
  omap (fun ev => match ev with EvTask _ (Incoming m) => Some m | _ => None end) evs.


(** What "consistent" asks of one state of the session: if [connected] is
    set, the id is a key of [_WEBSOCKETS], mapped to a handle of that id. *)
Definition registry_consistent (sys : Sys) : Prop :=
  connected (self sys) = true →
  ∃ ws, WEBSOCKETS sys !! _websocket_id (self sys) = Some ws
        ∧ ws_id ws = _websocket_id (self sys).

(* ===================================================================== *)
(** ** What the registry holds for the tasks of a session *)
(* ===================================================================== *)

(** The id under which a task has registered its connection, if it has. *)
Definition task_id (pc : Pc) : option string :=
  match pc with
  | pc_mark _ id | pc_recv _ id | pc_done id | pc_recv_raised _ id => Some id
  | _ => None
  end.

(** The id of the connection that an event hands to a task, if it does. *)
Definition handshake_id (ev : Event) : option string :=
  match ev with
  | EvTask _ (Handshake (Some ws)) => Some (ws_id ws)
  | _ => None
  end.

(** The ids handed out along a schedule, in order. *)
Definition handshake_ids (evs : list Event) : list string := omap handshake_id evs.

(** The ids handed out so far, after one more event. *)
Definition used_after (used : gset string) (ev : Event) : gset string :=
  match handshake_id ev with
  | Some id => {[id]} ∪ used
  | None => used
  end.

(** What [_WEBSOCKETS] holds for a task, by where the task stands. *)
Definition pc_ok (used : gset string) (reg : gmap string ClientConnection)
    (pc : Pc) : Prop :=
  match pc with
  | pc_mark ws id | pc_recv ws id | pc_recv_raised ws id =>
      id = ws_id ws ∧ reg !! id = Some ws ∧ id ∈ used
  | pc_done id => reg !! id = None ∧ id ∈ used
  | _ => True
  end.

(** The task stands after line 48 with this id. *)
Definition marked_pc (id : string) (pc : Pc) : Prop :=
  (∃ ws, pc = pc_recv ws id) ∨ pc = pc_done id ∨ (∃ ws, pc = pc_recv_raised ws id).

(** Some task of the session stands after line 48 with this id. *)
Definition marked (ts : list Pc) (id : string) : Prop :=
  ∃ i pc, ts !! i = Some pc ∧ marked_pc id pc.

(** The invariant of a session, [used] being the ids handed out so far:
    every task agrees with the registry, no two tasks hold the same id, and
    the session's [_websocket_id], unless it is empty, is the id of a task
    that went past line 48. *)
Record Inv (used : gset string) (sys : Sys) : Prop := mkInv {
  inv_tasks : ∀ i pc, tasks sys !! i = Some pc → pc_ok used (WEBSOCKETS sys) pc;
  inv_distinct : ∀ i j pci pcj id,
    tasks sys !! i = Some pci → tasks sys !! j = Some pcj →
    task_id pci = Some id → task_id pcj = Some id → i = j;
  inv_id : _websocket_id (self sys) = "" ∨ marked (tasks sys) (_websocket_id (self sys));
  inv_connected :
    connected (self sys) = true → marked (tasks sys) (_websocket_id (self sys))
}.

(* ===================================================================== *)
(** ** The message list of the page (lines 86-104 and 131-136) *)
(* ===================================================================== *)

(** [rx.Color(color, shade)] *)
Record Color := mkColor { color : string; shade : nat }.

(** The [rx.box] that [message_view] builds, by the properties that depend
    on its arguments: the two texts, [background], [id] and
    [margin_inline_start]. *)
Record Box := mkBox {
  box_label : string;
  box_text : string;
  box_background : Color;
  box_id : string;
  box_margin_inline_start : string
}.

(** lines 86-104; [rx.cond(c, a, b)] is [a] when [c] holds and [b] otherwise *)
Definition message_view (message : Message) (is_last : bool) : Box :=
  let is_user := match role message with user => true | server => false end in
  mkBox (if is_user then "You" else "Server")
        (text message)
        (if is_user then mkColor "blue" 8 else mkColor "yellow" 8)
        (if is_last then "messages-end" else "")
        (if is_user then "unset" else "auto").

(** lines 131-136: [rx.foreach] over [State.messages], the index counted
    from 0 *)
Definition messages_view (messages : list Message) : list Box :=
  imap (fun index message =>
          message_view message (Nat.eqb (index + 1) (length messages)))
       messages.

(** The boxes of a page that carry a given [id]. *)
Definition boxes_with_id (id : string) (boxes : list Box) : list Box :=
  filter (fun b => box_id b = id) boxes.

(* ===================================================================== *)
(** ** Observations on what a schedule lets out *)
(* ===================================================================== *)

(** The texts of the user entries of a log, in log order. *)
Definition user_texts (log : list Message) : list string :=
  omap (fun m => match role m with user => Some (text m) | server => None end) log.

(** The calls of [ws.send] among the effects, in order. *)
Definition sent (out : list Effect) : list (ClientConnection * string) :=
  omap (fun e => match e with WsSend ws data => Some (ws, data) | _ => None end) out.

(** The targets of the [rx.scroll_to] events among the effects, in order. *)
Definition scrolls (out : list Effect) : list string :=
  omap (fun e => match e with ScrollTo t => Some t | _ => None end) out.

(** The exceptions that left a handler, in order. *)
Definition raised (out : list Effect) : list Exn :=
  omap (fun e => match e with Uncaught e => Some e | _ => None end) out.

(** The events that ask for an entry to be appended to the log: a submit
    of the message form, and a text frame handed to a task. *)
Definition appending (ev : Event) : bool :=
  match ev with
  | EvSendMessage => true
  | EvTask _ (Incoming (Str _)) => true
  | _ => false
  end.

(** What the user submits along a schedule, [buffer] being the draft at its
    start: the draft follows the edits, and a submit takes it and leaves it
    empty. *)
Fixpoint drafts (buffer : string) (evs : list Event) : list string :=
  match evs with
  | [] => []
  | EvUpdateMessageBuffer value :: evs => drafts value evs
  | EvSendMessage :: evs => buffer :: drafts "" evs
  | _ :: evs => drafts buffer evs
  end.



(** A session whose first connection is listening when the connect form is
    submitted again. *)
Definition sys_two_listening : Sys :=
  mkSys (mkState "wss://websocket-echo.com" "" [mkMessage server "old"] true
           (ws_id ws1))
        {[ws_id ws1 := ws1]} ∅ [pc_recv ws1 (ws_id ws1); pc_reset].

(** Two tasks that were handed connections with one and the same id. *)
Definition sys_same_id : Sys :=
  mkSys (mkState "wss://websocket-echo.com" "" [] true (ws_id ws1))
        {[ws_id ws1 := ws1_again]} ∅
        [pc_recv ws1 (ws_id ws1); pc_recv ws1_again (ws_id ws1)].

(* ===================================================================== *)
(** ** Basic facts about the handlers *)
(* ===================================================================== *)

Lemma bool_of_str_true (s : string) : bool_of_str s = true ↔ s ≠ "".
Proof.
  unfold bool_of_str. rewrite negb_true_iff. apply String.eqb_neq.
Qed.

Lemma ws_send_raises closed ws data :
  ws_send closed ws data = Raise ConnectionClosed ↔ ws_id ws ∈ closed.
Proof.
  unfold ws_send. case_bool_decide; split; intros; try done.
Qed.

Lemma ws_send_returns closed ws data :
  ws_send closed ws data = Ret tt ↔ ws_id ws ∉ closed.
Proof.
  unfold ws_send. case_bool_decide; split; intros; try done.
Qed.

Lemma server_texts_app l1 l2 :
  server_texts (l1 ++ l2) = server_texts l1 ++ server_texts l2.
Proof. apply omap_app. Qed.

Lemma str_items_app l1 l2 : str_items (l1 ++ l2) = str_items l1 ++ str_items l2.
Proof. apply omap_app. Qed.

Lemma str_items_Str (l : list string) : str_items (map Str l) = l.
Proof.
  unfold str_items. induction l as [|s l IH]; [done|].
  simpl. f_equal. exact IH.
Qed.

Lemma app_singleton_neq {A} (l : list A) (x : A) : l ++ [x] ≠ l.
Proof.
  intros H. apply (f_equal length) in H. rewrite length_app in H. simpl in H. lia.
Qed.

(* ===================================================================== *)
(** ** The model at work *)
(* ===================================================================== *)

Example connect_schedule_runs :
  run Sys_init (connect_schedule 0 ws1 [Str "hi"; Bytes []; Str "there"])
  = Some (mkSys (mkState "wss://websocket-echo.com" ""
                   [mkMessage server "hi"; mkMessage server "there"]
                   true "6f1c0d3e-ws-1")
            ∅ {["6f1c0d3e-ws-1"]} [pc_done "6f1c0d3e-ws-1"],
          [Delta (mkState "wss://websocket-echo.com" "" [] false "");
           NetConnect "wss://websocket-echo.com";
           Delta (mkState "wss://websocket-echo.com" "" [] true "6f1c0d3e-ws-1");
           Delta (mkState "wss://websocket-echo.com" ""
                    [mkMessage server "hi"] true "6f1c0d3e-ws-1");
           ScrollTo "messages-end";
           Delta (mkState "wss://websocket-echo.com" ""
                    [mkMessage server "hi"; mkMessage server "there"]
                    true "6f1c0d3e-ws-1");
           ScrollTo "messages-end"]).
Proof. vm_compute. reflexivity. Qed.

(** The same scenario as the spec's: a connected session submits "hello". *)
Example send_hello :
  send_message ∅ {[ws_id ws1 := ws1]}
    (mkState "wss://websocket-echo.com" "hello" [] true (ws_id ws1))
  = (Ret tt,
     mkState "wss://websocket-echo.com" "" [mkMessage user "hello"] true (ws_id ws1),
     [Delta (mkState "wss://websocket-echo.com" "" [mkMessage user "hello"] true
               (ws_id ws1));
      ScrollTo "messages-end"; WsSend ws1 "hello"]).
Proof. vm_compute. reflexivity. Qed.

Example chat_log :
  (fst <$> run sys_listening chat_schedule)
  = Some (mkSys (mkState "wss://websocket-echo.com" ""
                   [mkMessage server "a"; mkMessage user "ping";
                    mkMessage server "b"; mkMessage server "b"]
                   true (ws_id ws1))
            {[ws_id ws1 := ws1]} ∅ [pc_recv ws1 (ws_id ws1)]).
Proof. vm_compute. reflexivity. Qed.

(* ===================================================================== *)
(** ** Page load *)
(* ===================================================================== *)

(** C9.  [on_load] sets [connected] to true exactly when the stored
    [_websocket_id] is non-empty and is a key of [_WEBSOCKETS]; the url, the
    draft, the log and the id itself are left as they were. *)
Theorem C9_on_load_reconciles_connected
    (reg : gmap string ClientConnection) (self : State) :
  (connected (on_load reg self) = true
     ↔ _websocket_id self ≠ "" ∧ _websocket_id self ∈ dom reg)
  ∧ server_url (on_load reg self) = server_url self
  ∧ message_buffer (on_load reg self) = message_buffer self
  ∧ messages (on_load reg self) = messages self
  ∧ _websocket_id (on_load reg self) = _websocket_id self.
Proof.
  split; [|done].
  unfold on_load; simpl.
  by rewrite andb_true_iff, bool_of_str_true, bool_decide_eq_true.
Qed.

(* ===================================================================== *)
(** ** Outbound send *)
(* ===================================================================== *)

(** C10.  [send_message] logs, and hands to [ws.send], exactly the draft it
    found in [message_buffer], and leaves the draft empty; nothing in it
    looks at the draft being empty or at [connected]: an empty draft is
    logged as a user message with empty text and sent as the empty string. *)
Theorem C10_send_message_uses_the_draft
    (closed : gset string) (reg : gmap string ClientConnection) (self : State) :
  let '(r, self', out) := send_message closed reg self in
  messages self' = messages self ++ [mkMessage user (message_buffer self)]
  ∧ message_buffer self' = ""
  ∧ server_url self' = server_url self
  ∧ connected self' = connected self
  ∧ _websocket_id self' = _websocket_id self
  ∧ out = [Delta self'; ScrollTo "messages-end"]
          ++ match reg !! _websocket_id self with
             | Some ws => [WsSend ws (message_buffer self)]
             | None => []
             end
  ∧ send_message closed reg (set_connected (negb (connected self)) self)
    = (r, set_connected (negb (connected self)) self',
       match out with
       | Delta s :: rest => Delta (set_connected (negb (connected self)) s) :: rest
       | _ => out
       end)
  ∧ send_message ∅ {[ws_id ws1 := ws1]}
      (mkState "wss://websocket-echo.com" "" [] true (ws_id ws1))
    = (Ret tt,
       mkState "wss://websocket-echo.com" "" [mkMessage user ""] true (ws_id ws1),
       [Delta (mkState "wss://websocket-echo.com" "" [mkMessage user ""] true
                 (ws_id ws1));
        ScrollTo "messages-end"; WsSend ws1 ""]).
Proof.
  unfold send_message; simpl.
  destruct (reg !! _websocket_id self) as [ws|] eqn:Hlook; simpl;
    repeat split; reflexivity.
Qed.

(** C4, as stated, fails: the session reaches a state where the handle is
    still registered and its [send] fails, and there [send_message] does not
    return: [ConnectionClosed] leaves the handler. *)
Lemma C4_send_failure_is_raised :
  ∃ sys out,
    run Sys_init send_after_close_schedule = Some (sys, out)
    ∧ WEBSOCKETS sys !! _websocket_id (self sys) = Some ws1
    ∧ send_message (closed sys) (WEBSOCKETS sys) (self sys)
      = (Raise ConnectionClosed,
         mkState "wss://websocket-echo.com" "" [mkMessage user "hello"] true
           (ws_id ws1),
         [Delta (mkState "wss://websocket-echo.com" "" [mkMessage user "hello"]
                   true (ws_id ws1));
          ScrollTo "messages-end"; WsSend ws1 "hello"])
    ∧ ∃ sys' out',
        step sys EvSendMessage = Some (sys', out')
        ∧ Uncaught ConnectionClosed ∈ out'.
Proof.
  eexists _, _. split; [vm_compute; reflexivity|].
  split; [vm_compute; reflexivity|].
  split; [vm_compute; reflexivity|].
  eexists _, _. split; [vm_compute; reflexivity|].
  set_solver.
Qed.

(** C4, amended.  In every case the only change to the session is the user
    entry appended to the log and the draft emptied.  With no handle under
    [_websocket_id] the handler returns without calling [send] and without
    raising.  With a handle, [send] is called with the draft, and the
    handler returns exactly when [send] does: a failing [send] is not
    caught, [ConnectionClosed] leaves the handler. *)
Theorem C4_send_message_failures
    (closed : gset string) (reg : gmap string ClientConnection) (self : State) :
  let '(r, self', out) := send_message closed reg self in
  self' = mkState (server_url self) ""
            (messages self ++ [mkMessage user (message_buffer self)])
            (connected self) (_websocket_id self)
  ∧ match reg !! _websocket_id self with
    | None =>
        r = Ret tt ∧ out = [Delta self'; ScrollTo "messages-end"]
    | Some ws =>
        out = [Delta self'; ScrollTo "messages-end"; WsSend ws (message_buffer self)]
        ∧ (r = Raise ConnectionClosed ↔ ws_id ws ∈ closed)
        ∧ (r = Ret tt ↔ ws_id ws ∉ closed)
    end.
Proof.
  unfold send_message; simpl.
  destruct (reg !! _websocket_id self) as [ws|] eqn:Hlook; simpl.
  - split; [done|]. split; [done|].
    split; [apply ws_send_raises | apply ws_send_returns].
  - done.
Qed.

(* ===================================================================== *)
(** ** Registering the connection (lines 44-45) *)
(* ===================================================================== *)

(** C5, as stated, fails: registering a handle under an id that is already a
    key raises nothing and replaces the handle that was there. *)
Lemma C5_duplicate_id_overwrites :
  ({[ws_id ws1 := ws1]} : gmap string ClientConnection) !! ws_id ws1_again = Some ws1
  ∧ ws1_again ≠ ws1
  ∧ task_step (pc_handshake "wss://other.example") (Handshake (Some ws1_again))
      State_default {[ws_id ws1 := ws1]}
    = Some (pc_mark ws1_again (ws_id ws1), State_default,
            {[ws_id ws1 := ws1_again]}, []).
Proof.
  split; [vm_compute; reflexivity|].
  split; [discriminate|].
  unfold task_step. by rewrite insert_singleton_eq.
Qed.

(** C5, amended.  Line 45 is a plain item assignment: it never raises, and
    afterwards the id maps to the new handle whether or not it was a key
    before (a handle that was there is replaced); the other entries stay. *)
Theorem C5_register_is_item_assignment
    (uri : string) (ws : ClientConnection) (self : State)
    (reg : gmap string ClientConnection) :
  ∃ reg',
    task_step (pc_handshake uri) (Handshake (Some ws)) self reg
    = Some (pc_mark ws (ws_id ws), self, reg', [])
    ∧ reg' !! ws_id ws = Some ws
    ∧ dom reg' = {[ws_id ws]} ∪ dom reg
    ∧ ∀ k, k ≠ ws_id ws → reg' !! k = reg !! k.
Proof.
  exists (<[ws_id ws := ws]> reg). split; [done|].
  split; [apply lookup_insert_eq|].
  split; [apply dom_insert_L|].
  intros k Hk. by apply lookup_insert_ne.
Qed.

(* ===================================================================== *)
(** ** The receive loop (lines 49-56) *)
(* ===================================================================== *)

(** C8.  One item of the iterator appends a server entry to the log exactly
    when it is a [str]; a [bytes] item changes nothing and lets nothing out. *)
Theorem C8_only_str_is_logged
    (ws : ClientConnection) (id : string) (message : Data)
    (self : State) (reg : gmap string ClientConnection) :
  ∃ self' out,
    task_step (pc_recv ws id) (Incoming message) self reg
    = Some (pc_recv ws id, self', reg, out)
    ∧ match message with
      | Str s =>
          self' = set_messages (messages self ++ [mkMessage server s]) self
          ∧ out = [Delta self'; ScrollTo "messages-end"]
      | Bytes _ => self' = self ∧ out = []
      end
    ∧ ((∃ s, message = Str s) ↔ messages self' ≠ messages self)
    ∧ ((∃ b, message = Bytes b) ↔ messages self' = messages self).
Proof.
  destruct message as [s|b]; simpl.
  - eexists _, _. split; [reflexivity|]. split; [done|]. simpl. split.
    + split; [intros _; apply app_singleton_neq | eauto].
    + split; [intros [b Hb]; discriminate|].
      intros H. by apply app_singleton_neq in H.
  - exists self, []. split; [reflexivity|]. split; [done|]. split.
    + split; [intros [s Hs]; discriminate | done].
    + split; [done | eauto].
Qed.

(* ===================================================================== *)
(** ** Resuming a task inside the session *)
(* ===================================================================== *)

Lemma step_task sys i inp pc pc' s reg out :
  tasks sys !! i = Some pc →
  task_step pc inp (self sys) (WEBSOCKETS sys) = Some (pc', s, reg, out) →
  step sys (EvTask i inp)
  = Some (mkSys s reg (closed sys) (<[i := pc']> (tasks sys)), out).
Proof. intros Hpc Hstep. simpl. by rewrite Hpc, Hstep. Qed.

Lemma step_task_disabled sys i inp pc :
  tasks sys !! i = Some pc →
  task_step pc inp (self sys) (WEBSOCKETS sys) = None →
  step sys (EvTask i inp) = None.
Proof. intros Hpc Hstep. simpl. by rewrite Hpc, Hstep. Qed.

Lemma lookup_task_insert (l : list Pc) i pc pc' :
  l !! i = Some pc → <[i := pc']> l !! i = Some pc'.
Proof. intros H. apply list_lookup_insert_eq. by eapply lookup_lt_Some. Qed.

Lemma run_cons sys ev evs :
  run sys (ev :: evs)
  = match step sys ev with
    | None => None
    | Some (sys', out) =>
        match run sys' evs with
        | None => None
        | Some (sys'', out') => Some (sys'', out ++ out')
        end
    end.
Proof. reflexivity. Qed.

(** A task that waits at line 38 can only be resumed by the lock. *)
Lemma reset_needs_lock inp self reg :
  inp ≠ Tick → task_step pc_reset inp self reg = None.
Proof. by destruct inp. Qed.

(* ===================================================================== *)
(** ** The start of [connect] (lines 36-43) *)
(* ===================================================================== *)

(** C3.  Whatever the session holds when a [connect] task starts (a log
    from an earlier connection, [connected] set, an id), the first thing the
    task does is to empty the log, clear [connected] and empty the id, and
    to let that state out; whenever the task goes on to start the network
    connect, that is the next thing it lets out, after the reset. *)
Theorem C3_connect_resets_before_network (sys : Sys) (i : nat) :
  tasks sys !! i = Some pc_reset →
  ∃ sys1,
    step sys (EvTask i Tick) = Some (sys1, [Delta (self sys1)])
    ∧ messages (self sys1) = []
    ∧ connected (self sys1) = false
    ∧ _websocket_id (self sys1) = ""
    ∧ server_url (self sys1) = server_url (self sys)
    ∧ message_buffer (self sys1) = message_buffer (self sys)
    ∧ WEBSOCKETS sys1 = WEBSOCKETS sys
    ∧ tasks sys1 !! i = Some pc_open
    ∧ (∀ inp, inp ≠ Tick → step sys (EvTask i inp) = None)
    ∧ ∀ inputs sys' out,
        run sys (map (EvTask i) inputs) = Some (sys', out) →
        (∃ uri, NetConnect uri ∈ out) →
        ∃ rest,
          out = Delta (self sys1) :: NetConnect (server_url (self sys)) :: rest.
Proof.
  intros Hpc.
  eexists. split; [by eapply step_task|]. simpl.
  repeat (split; [done|]).
  split; [by eapply lookup_task_insert|].
  split.
  { intros inp Hinp. eapply step_task_disabled; [done|]. by apply reset_needs_lock. }
  intros inputs sys' out Hrun [uri Huri].
  destruct inputs as [|a inputs]; simpl in Hrun.
  { injection Hrun as <- <-. by apply elem_of_nil in Huri. }
  rewrite Hpc in Hrun.
  destruct a; try done. simpl in Hrun.
  destruct inputs as [|b inputs]; simpl in Hrun.
  { injection Hrun as <- <-. by apply list_elem_of_singleton in Huri. }
  rewrite (lookup_task_insert _ _ _ _ Hpc) in Hrun.
  destruct b; try done. simpl in Hrun.
  match type of Hrun with
  | context [run ?s ?e] => destruct (run s e) as [[sys2 out2]|]; [|done]
  end.
  injection Hrun as <- <-. by eexists.
Qed.

(** The reset of a reconnect, on a session that still shows an earlier log. *)
Lemma C3_reconnect_witness :
  ∃ sys1,
    step sys_with_history (EvTask 1 Tick) = Some (sys1, [Delta (self sys1)])
    ∧ messages (self sys1) = []
    ∧ connected (self sys1) = false
    ∧ _websocket_id (self sys1) = ""
    ∧ server_url (self sys1) = server_url (self sys_with_history)
    ∧ message_buffer (self sys1) = message_buffer (self sys_with_history)
    ∧ WEBSOCKETS sys1 = WEBSOCKETS sys_with_history
    ∧ tasks sys1 !! 1 = Some pc_open
    ∧ (∀ inp, inp ≠ Tick → step sys_with_history (EvTask 1 inp) = None)
    ∧ ∀ inputs sys' out,
        run sys_with_history (map (EvTask 1) inputs) = Some (sys', out) →
        (∃ uri, NetConnect uri ∈ out) →
        ∃ rest,
          out = Delta (self sys1)
                :: NetConnect (server_url (self sys_with_history)) :: rest.
Proof.
  apply (C3_connect_resets_before_network sys_with_history 1). reflexivity.
Defined.

(* ===================================================================== *)
(** ** A connect that fails (line 43) *)
(* ===================================================================== *)



Lemma run_one sys ev sys' out :
  step sys ev = Some (sys', out) → run sys [ev] = Some (sys', out).
Proof. intros H. rewrite run_cons, H. simpl. by rewrite app_nil_r. Qed.





(* ===================================================================== *)
(** ** The end of the receive loop (line 57) *)
(* ===================================================================== *)

(** Line 57 is all that follows the loop: the session's state is not
    touched by it. *)
Lemma loop_end_keeps_state ws id self reg :
  ∃ pc' reg' out,
    task_step (pc_recv ws id) EndOfStream self reg = Some (pc', self, reg', out)
    ∧ reg' !! id = None.
Proof.
  simpl. destruct (reg !! id) as [h|] eqn:Hid.
  - eexists _, _, _. split; [reflexivity|]. apply lookup_delete_eq.
  - eexists _, _, _. split; [reflexivity|]. done.
Qed.

(** C2, at a concrete close: a connection that received "hi" and was then
    closed.  The entry is removed and the log is kept, but [connected] is
    still true and [_websocket_id] still holds the id of the closed
    connection. *)
Theorem C2_close_leaves_connected_set :
  ∃ sys out,
    run Sys_init (connect_schedule 0 ws1 [Str "hi"]) = Some (sys, out)
    ∧ tasks sys = [pc_done (ws_id ws1)]
    ∧ WEBSOCKETS sys = ∅
    ∧ messages (self sys) = [mkMessage server "hi"]
    ∧ connected (self sys) = true
    ∧ _websocket_id (self sys) = ws_id ws1.
Proof.
  eexists _, _. split; [vm_compute; reflexivity|]. done.
Qed.

(** C1, at a concrete close: after a connection was opened and closed the
    session is in a state with [connected] set and no entry under its id. *)
Theorem C1_connected_without_entry :
  ∃ sys out,
    run Sys_init (connect_schedule 0 ws1 []) = Some (sys, out)
    ∧ connected (self sys) = true
    ∧ WEBSOCKETS sys !! _websocket_id (self sys) = None
    ∧ ¬ registry_consistent sys.
Proof.
  eexists _, _. split; [vm_compute; reflexivity|].
  split; [done|]. split; [done|].
  intros H. destruct H as (ws & Hws & _); [done|]. discriminate.
Qed.

(* ===================================================================== *)
(** ** The log during one connection *)
(* ===================================================================== *)

Lemma epoch_step sys i ws id ev :
  tasks sys !! i = Some (pc_recv ws id) →
  epoch_event i ev = true →
  ∃ sys' out more,
    step sys ev = Some (sys', out)
    ∧ tasks sys' !! i = Some (pc_recv ws id)
    ∧ messages (self sys') = messages (self sys) ++ more
    ∧ server_texts more = str_items (received [ev]).
Proof.
  intros Hpc Hev. destruct ev as [| v | v | | | j inp | k]; simpl in Hev.
  - eexists _, _, []. split; [reflexivity|]. simpl. by rewrite app_nil_r.
  - eexists _, _, []. split; [reflexivity|]. simpl. by rewrite app_nil_r.
  - eexists _, _, []. split; [reflexivity|]. simpl. by rewrite app_nil_r.
  - simpl. unfold send_message.
    destruct (WEBSOCKETS sys !! _) as [h|];
      eexists _, _, [_]; (split; [reflexivity|]); done.
  - eexists _, _, []. split; [reflexivity|]. simpl.
    split; [by apply lookup_app_l_Some|]. by rewrite app_nil_r.
  - destruct inp as [| r | m | |]; try done.
    apply Nat.eqb_eq in Hev as ->.
    destruct m as [s|b].
    + eexists _, _, [_]. split; [by eapply step_task|]. simpl.
      split; [by eapply lookup_task_insert|]. done.
    + eexists _, _, []. split; [by eapply step_task|]. simpl.
      split; [by eapply lookup_task_insert|]. by rewrite app_nil_r.
  - eexists _, _, []. split; [reflexivity|]. simpl. by rewrite app_nil_r.
Qed.

(** C6, as stated, fails when the connect form is submitted again while a
    connection is listening: the reset of the new task empties the log, so
    the frame "a", received before any close, is lost from the server
    entries, and the log has not only grown. *)
Lemma C6_reconnect_loses_frames :
  ∃ sys out,
    run Sys_init reconnect_during_chat_schedule = Some (sys, out)
    ∧ tasks sys !! 0 = Some (pc_recv ws1 (ws_id ws1))
    ∧ received reconnect_during_chat_schedule = [Str "a"; Str "b"]
    ∧ server_texts (messages (self sys)) = ["b"]
    ∧ messages (self sys) = [mkMessage server "b"].
Proof.
  eexists _, _. split; [vm_compute; reflexivity|]. done.
Qed.

(** C6, amended.  While task [i] is in its receive loop and no other
    connect task takes a step, whatever else the session does in between
    (page loads, edits, sends, submits of the connect form whose task has
    not run yet, network closes), the schedule runs through and the log
    only grows at its end; the server entries it gains are the texts of the
    [str] items that arrived, one entry per item, in the order of arrival.
    When all that arrived is text, they are exactly the received frames. *)
Theorem C6_server_entries_follow_receipt
    (sys : Sys) (i : nat) (ws : ClientConnection) (id : string) (evs : list Event) :
  tasks sys !! i = Some (pc_recv ws id) →
  forallb (epoch_event i) evs = true →
  ∃ sys' out more,
    run sys evs = Some (sys', out)
    ∧ tasks sys' !! i = Some (pc_recv ws id)
    ∧ messages (self sys') = messages (self sys) ++ more
    ∧ server_texts (messages (self sys'))
      = server_texts (messages (self sys)) ++ str_items (received evs)
    ∧ ∀ texts, received evs = map Str texts →
        server_texts (messages (self sys'))
        = server_texts (messages (self sys)) ++ texts.
Proof.
  intros Hpc Hevs.
  assert (∃ sys' out more,
    run sys evs = Some (sys', out)
    ∧ tasks sys' !! i = Some (pc_recv ws id)
    ∧ messages (self sys') = messages (self sys) ++ more
    ∧ server_texts more = str_items (received evs)) as (sys' & out & more & H).
  { revert sys Hpc Hevs. induction evs as [|ev evs IH]; intros sys Hpc Hevs.
    - exists sys, [], []. simpl. by rewrite app_nil_r.
    - simpl in Hevs. apply andb_true_iff in Hevs as [Hev Hevs].
      destruct (epoch_step sys i ws id ev Hpc Hev)
        as (sys1 & out1 & more1 & Hstep & Hpc1 & Hlog1 & Hsrv1).
      destruct (IH sys1 Hpc1 Hevs)
        as (sys2 & out2 & more2 & Hrun & Hpc2 & Hlog2 & Hsrv2).
      exists sys2, (out1 ++ out2), (more1 ++ more2).
      rewrite run_cons, Hstep, Hrun. split; [done|]. split; [done|].
      split; [by rewrite Hlog2, Hlog1, app_assoc|].
      rewrite server_texts_app, Hsrv1, Hsrv2.
      change (ev :: evs) with ([ev] ++ evs).
      unfold received. by rewrite omap_app, str_items_app. }
  destruct H as (Hrun & Hpc' & Hlog & Hsrv).
  exists sys', out, more. repeat (split; [done|]).
  assert (server_texts (messages (self sys'))
          = server_texts (messages (self sys)) ++ str_items (received evs)) as Heq.
  { by rewrite Hlog, server_texts_app, Hsrv. }
  split; [done|].
  intros texts Htexts. by rewrite Heq, Htexts, str_items_Str.
Qed.

(** The log of [chat_schedule], started in [sys_listening]. *)
Lemma C6_chat_witness :
  ∃ sys' out more,
    run sys_listening chat_schedule = Some (sys', out)
    ∧ tasks sys' !! 0 = Some (pc_recv ws1 (ws_id ws1))
    ∧ messages (self sys') = messages (self sys_listening) ++ more
    ∧ server_texts (messages (self sys'))
      = server_texts (messages (self sys_listening))
        ++ str_items (received chat_schedule)
    ∧ ∀ texts, received chat_schedule = map Str texts →
        server_texts (messages (self sys'))
        = server_texts (messages (self sys_listening)) ++ texts.
Proof.
  apply (C6_server_entries_follow_receipt sys_listening 0 ws1 (ws_id ws1)
           chat_schedule); reflexivity.
Defined.

(* ===================================================================== *)
(** ** The registry follows the receive loops *)
(* ===================================================================== *)

Lemma pc_ok_mono used used' reg pc : used ⊆ used' → pc_ok used reg pc → pc_ok used' reg pc.
Proof.
  intros Hsub. destruct pc; simpl; try done.
  - intros (? & ? & ?). eauto using elem_of_weaken.
  - intros (? & ? & ?). eauto using elem_of_weaken.
  - intros (? & ?). eauto using elem_of_weaken.
  - intros (? & ? & ?). eauto using elem_of_weaken.
Qed.

Lemma pc_ok_id used reg pc id : pc_ok used reg pc → task_id pc = Some id → id ∈ used.
Proof. destruct pc; simpl; try done; intros H [= <-]; tauto. Qed.

Lemma pc_ok_insert_fresh used reg ws q :
  ws_id ws ∉ used →
  pc_ok used reg q → pc_ok ({[ws_id ws]} ∪ used) (<[ws_id ws := ws]> reg) q.
Proof.
  intros Hnew Hq.
  destruct q as [| | | ws' id' | ws' id' | id' | | ws' id']; simpl in *; try done.
  - destruct Hq as (? & ? & ?). split; [done|]. split; [|set_solver].
    rewrite lookup_insert_ne; [done|]. intros Heq. apply Hnew. by rewrite Heq.
  - destruct Hq as (? & ? & ?). split; [done|]. split; [|set_solver].
    rewrite lookup_insert_ne; [done|]. intros Heq. apply Hnew. by rewrite Heq.
  - destruct Hq as (? & ?). split; [|set_solver].
    rewrite lookup_insert_ne; [done|]. intros Heq. apply Hnew. by rewrite Heq.
  - destruct Hq as (? & ? & ?). split; [done|]. split; [|set_solver].
    rewrite lookup_insert_ne; [done|]. intros Heq. apply Hnew. by rewrite Heq.
Qed.

Lemma pc_ok_delete_other used reg id q :
  (∀ id', task_id q = Some id' → id' ≠ id) →
  pc_ok used reg q → pc_ok used (delete id reg) q.
Proof.
  intros Hother Hq.
  destruct q as [| | | ws' id' | ws' id' | id' | | ws' id']; simpl in *; try done.
  - destruct Hq as (? & ? & ?). split; [done|]. split; [|done].
    rewrite lookup_delete_ne; [done|]. intros Heq. by eapply Hother.
  - destruct Hq as (? & ? & ?). split; [done|]. split; [|done].
    rewrite lookup_delete_ne; [done|]. intros Heq. by eapply Hother.
  - destruct Hq as (? & ?). split; [|done].
    rewrite lookup_delete_ne; [done|]. intros Heq. by eapply Hother.
  - destruct Hq as (? & ? & ?). split; [done|]. split; [|done].
    rewrite lookup_delete_ne; [done|]. intros Heq. by eapply Hother.
Qed.

Lemma Inv_init : Inv ∅ Sys_init.
Proof.
  split; simpl.
  - intros i pc H. by rewrite lookup_nil in H.
  - intros i j pci pcj id H. by rewrite lookup_nil in H.
  - by left.
  - done.
Qed.

(** Handlers that leave the tasks, the registry and the id alone. *)
Lemma Inv_state used sys s cl :
  Inv used sys →
  _websocket_id s = _websocket_id (self sys) →
  (connected s = true → connected (self sys) = true ∨ _websocket_id s ≠ "") →
  Inv used (mkSys s (WEBSOCKETS sys) cl (tasks sys)).
Proof.
  intros [H1 H2 H3 H4] Hid Hc. split; simpl; [done|done|by rewrite Hid|].
  intros Hs. rewrite Hid. destruct (Hc Hs) as [?|Hne]; [by apply H4|].
  destruct H3 as [H3|H3]; [|done]. by rewrite Hid in Hne.
Qed.

Lemma Inv_spawn used sys :
  Inv used sys →
  Inv used (mkSys (self sys) (WEBSOCKETS sys) (closed sys) (tasks sys ++ [pc_reset])).
Proof.
  intros [H1 H2 H3 H4].
  assert (∀ i pc, (tasks sys ++ [pc_reset]) !! i = Some pc →
                  tasks sys !! i = Some pc ∨ pc = pc_reset) as Hlook.
  { intros i pc H. apply lookup_app_Some in H as [H|[_ H]]; [by left|].
    right. apply list_lookup_singleton_Some in H as [_ <-]. done. }
  assert (∀ id, marked (tasks sys) id → marked (tasks sys ++ [pc_reset]) id) as Hm.
  { intros id (i & pc & Hi & Hpc). exists i, pc. split; [by apply lookup_app_l_Some|done]. }
  split; simpl.
  - intros i pc H. destruct (Hlook _ _ H) as [H'| ->]; [by eapply H1|done].
  - intros i j pci pcj id Hi Hj Hidi Hidj.
    destruct (Hlook _ _ Hi) as [Hi'| ->]; [|done].
    destruct (Hlook _ _ Hj) as [Hj'| ->]; [|done].
    by eapply H2.
  - destruct H3 as [?|?]; [by left|right; by apply Hm].
  - intros Hc. by apply Hm, H4.
Qed.

Lemma lookup_updated_task (ts : list Pc) j pc pc' i q :
  ts !! j = Some pc →
  <[j := pc']> ts !! i = Some q →
  (i = j ∧ q = pc') ∨ (i ≠ j ∧ ts !! i = Some q).
Proof.
  intros Hj H. apply list_lookup_insert_Some in H as [(-> & -> & _)|[? ?]]; auto.
Qed.

Lemma marked_update (ts : list Pc) j pc pc' id :
  ts !! j = Some pc →
  (marked_pc id pc → marked_pc id pc') →
  marked ts id → marked (<[j := pc']> ts) id.
Proof.
  intros Hj Hpc (i & q & Hi & Hq).
  destruct (decide (i = j)) as [->|Hne].
  - exists j, pc'. split; [by eapply lookup_task_insert|].
    rewrite Hj in Hi. injection Hi as ->. by apply Hpc.
  - exists i, q. split; [|done]. by rewrite list_lookup_insert_ne.
Qed.

Lemma marked_here (ts : list Pc) j pc pc' id :
  ts !! j = Some pc → marked_pc id pc' → marked (<[j := pc']> ts) id.
Proof. intros Hj Hpc. exists j, pc'. split; [by eapply lookup_task_insert|done]. Qed.

(** One task moves from [pc] to [pc']. *)
Lemma Inv_update used used' sys j pc pc' s reg :
  Inv used sys →
  tasks sys !! j = Some pc →
  (∀ i q, i ≠ j → tasks sys !! i = Some q →
          pc_ok used (WEBSOCKETS sys) q → pc_ok used' reg q) →
  pc_ok used' reg pc' →
  (∀ id, task_id pc' = Some id → task_id pc = Some id ∨ id ∉ used) →
  (∀ id, marked_pc id pc → marked_pc id pc') →
  (_websocket_id s = "" ∨ _websocket_id s = _websocket_id (self sys)
   ∨ marked_pc (_websocket_id s) pc') →
  (connected s = true →
   (connected (self sys) = true ∧ _websocket_id s = _websocket_id (self sys))
   ∨ marked_pc (_websocket_id s) pc') →
  Inv used' (mkSys s reg (closed sys) (<[j := pc']> (tasks sys))).
Proof.
  intros [H1 H2 H3 H4] Hj Hframe Hpc' Hfresh Hmark Hid Hconn. split; simpl.
  - intros i q Hi. destruct (lookup_updated_task _ _ _ _ _ _ Hj Hi) as [[-> ->]|[Hne Hi']].
    + done.
    + eapply Hframe; eauto.
  - intros i k pci pck id Hi Hk Hidi Hidk.
    destruct (lookup_updated_task _ _ _ _ _ _ Hj Hi) as [[-> ->]|[Hnei Hi']];
      destruct (lookup_updated_task _ _ _ _ _ _ Hj Hk) as [[-> ->]|[Hnek Hk']].
    + done.
    + destruct (Hfresh _ Hidi) as [Hold|Hnew].
      * by eapply (H2 j k).
      * destruct Hnew. eapply pc_ok_id; eauto.
    + destruct (Hfresh _ Hidk) as [Hold|Hnew].
      * by eapply (H2 i j).
      * destruct Hnew. eapply pc_ok_id; eauto.
    + by eapply H2.
  - destruct Hid as [?|[Heq|?]]; [by left| |right; by eapply marked_here].
    rewrite Heq. destruct H3 as [?|?]; [by left|right].
    eapply marked_update; eauto.
  - intros Hc. destruct (Hconn Hc) as [[Hc' Heq]|?]; [|by eapply marked_here].
    rewrite Heq. eapply marked_update; eauto.
Qed.

Ltac inv_side :=
  simpl; try done; try (by intros ? [[? ?]|[?|[? ?]]]); auto.

Lemma Inv_task used sys j inp pc pc' s reg out :
  Inv used sys →
  tasks sys !! j = Some pc →
  task_step pc inp (self sys) (WEBSOCKETS sys) = Some (pc', s, reg, out) →
  (∀ id, handshake_id (EvTask j inp) = Some id → id ∉ used) →
  Inv (used_after used (EvTask j inp))
      (mkSys s reg (closed sys) (<[j := pc']> (tasks sys))).
Proof.
  intros HI Hj Hstep Hfresh.
  pose proof (inv_tasks _ _ HI j pc Hj) as Hok.
  destruct pc as [| | uri | ws id | ws id | id | e | wsr idr], inp as [| [h|] | m | |];
    simpl in Hstep; try done; unfold used_after; simpl.
  - (* lines 38-41 *)
    injection Hstep as <- <- <- <-.
    eapply Inv_update; eauto; inv_side.
  - (* line 43 *)
    injection Hstep as <- <- <- <-.
    eapply Inv_update; eauto; inv_side.
  - (* lines 44-45 *)
    injection Hstep as <- <- <- <-.
    assert (ws_id h ∉ used) as Hnew by (by apply Hfresh).
    eapply Inv_update; eauto; inv_side.
    + intros i q _ _ Hq. by apply pc_ok_insert_fresh.
    + split; [done|]. split; [apply lookup_insert_eq|set_solver].
  - (* line 43 fails *)
    injection Hstep as <- <- <- <-.
    eapply Inv_update; eauto; inv_side.
  - (* lines 46-48 *)
    injection Hstep as <- <- <- <-.
    eapply Inv_update; eauto; inv_side.
    + right; right. left. by exists ws.
    + intros _. right. left. by exists ws.
  - (* lines 50-56 *)
    destruct m as [text|b]; injection Hstep as <- <- <- <-;
      eapply Inv_update; eauto; inv_side.
  - (* line 57 *)
    simpl in Hok. destruct Hok as (Hid & Hlook & Hused).
    rewrite Hlook in Hstep. injection Hstep as <- <- <- <-.
    eapply Inv_update; eauto; inv_side.
    + intros i q Hne Hi Hq. apply pc_ok_delete_other; [|done].
      intros id' Hq' ->. apply Hne.
      by eapply (inv_distinct _ _ HI i j q (pc_recv ws id) id).
    + split; [apply lookup_delete_eq|done].
    + intros id' [[ws' [= _ <-]]|[?|[ws' ?]]]; [right; by left|done|done].
  - (* line 49 raises *)
    injection Hstep as <- <- <- <-.
    eapply Inv_update; eauto; inv_side.
    intros id' [[ws' [= <- <-]]|[?|[ws' ?]]]; [|done|done].
    right; right. by exists ws.
Qed.

Lemma used_after_mono used ev : used ⊆ used_after used ev.
Proof.
  unfold used_after. destruct (handshake_id ev); [|done].
  intros x Hx. apply elem_of_union. by right.
Qed.

Lemma Inv_step used sys ev sys' out :
  Inv used sys →
  step sys ev = Some (sys', out) →
  (∀ id, handshake_id ev = Some id → id ∉ used) →
  Inv (used_after used ev) sys'.
Proof.
  intros HI Hstep Hfresh.
  destruct ev as [| v | v | | | j inp | k]; simpl in Hstep.
  - injection Hstep as <- <-. apply Inv_state; [done|done|].
    unfold on_load; simpl. intros Hc. right.
    apply andb_true_iff in Hc as [Hc _]. by apply bool_of_str_true.
  - injection Hstep as <- <-. apply Inv_state; [done|done|]. simpl; auto.
  - injection Hstep as <- <-. apply Inv_state; [done|done|]. simpl; auto.
  - unfold send_message in Hstep.
    destruct (WEBSOCKETS sys !! _) as [h|]; injection Hstep as <- <-;
      (apply Inv_state; [done|done|]); simpl; auto.
  - injection Hstep as <- <-. by apply Inv_spawn.
  - destruct (tasks sys !! j) as [pc|] eqn:Hj; [|done].
    destruct (task_step pc inp (self sys) (WEBSOCKETS sys))
      as [[[[pc' s] reg] out']|] eqn:Htask; [|done].
    injection Hstep as <- <-. by eapply Inv_task.
  - injection Hstep as <- <-.
    destruct HI as [H1 H2 H3 H4]. by split.
Qed.

Lemma Inv_run used sys evs sys' out :
  Inv used sys →
  run sys evs = Some (sys', out) →
  NoDup (handshake_ids evs) →
  (∀ id, id ∈ handshake_ids evs → id ∉ used) →
  ∃ used', Inv used' sys'.
Proof.
  revert used sys out. induction evs as [|ev evs IH]; intros used sys out HI Hrun Hnd Hfresh.
  - injection Hrun as <- <-. by exists used.
  - rewrite run_cons in Hrun.
    destruct (step sys ev) as [[sys1 out1]|] eqn:Hstep; [|done].
    destruct (run sys1 evs) as [[sys2 out2]|] eqn:Hrun1; [|done].
    injection Hrun as <- <-.
    unfold handshake_ids in *. simpl in Hnd, Hfresh.
    eapply (IH (used_after used ev) sys1 out2); [| done | |].
    + eapply Inv_step; [done|done|]. intros id Hid. apply Hfresh.
      rewrite Hid. by left.
    + destruct (handshake_id ev); [by apply NoDup_cons in Hnd as [_ ?]|done].
    + intros id Hid. unfold used_after.
      destruct (handshake_id ev) as [id0|] eqn:Hev.
      * apply NoDup_cons in Hnd as [Hnotin _].
        intros [Hin|Hin]%elem_of_union.
        -- apply elem_of_singleton in Hin as ->. done.
        -- by eapply Hfresh; [right|].
      * by apply Hfresh.
Qed.

(** Provided the network hands out every connection id once, in every
    state the session can reach: a task between line 45 and the end of its
    receive loop, and a task that the exception of line 49 ended, has its
    handle in [_WEBSOCKETS] under its id; a task past line 57 has no entry
    under its id; and if [connected] is set, then [_websocket_id] is the id
    of a task that is in its receive loop, with its handle registered, or
    of a task whose loop has ended normally, with no entry left, or of a
    task whose receive raised, with the handle of the dead connection still
    registered. *)
Theorem registry_follows_receive_loops (evs : list Event) (sys : Sys)
    (out : list Effect) :
  NoDup (handshake_ids evs) →
  run Sys_init evs = Some (sys, out) →
  (∀ i ws id,
     tasks sys !! i = Some (pc_mark ws id) ∨ tasks sys !! i = Some (pc_recv ws id)
     ∨ tasks sys !! i = Some (pc_recv_raised ws id) →
     WEBSOCKETS sys !! id = Some ws ∧ ws_id ws = id)
  ∧ (∀ i id, tasks sys !! i = Some (pc_done id) → WEBSOCKETS sys !! id = None)
  ∧ (connected (self sys) = true →
     (∃ i ws, tasks sys !! i = Some (pc_recv ws (_websocket_id (self sys)))
              ∧ WEBSOCKETS sys !! _websocket_id (self sys) = Some ws
              ∧ ws_id ws = _websocket_id (self sys))
     ∨ (∃ i, tasks sys !! i = Some (pc_done (_websocket_id (self sys)))
             ∧ WEBSOCKETS sys !! _websocket_id (self sys) = None)
     ∨ (∃ i ws, tasks sys !! i = Some (pc_recv_raised ws (_websocket_id (self sys)))
                ∧ WEBSOCKETS sys !! _websocket_id (self sys) = Some ws
                ∧ ws_id ws = _websocket_id (self sys))).
Proof.
  intros Hnd Hrun.
  destruct (Inv_run ∅ Sys_init evs sys out Inv_init Hrun Hnd) as [used HI].
  { intros id _. apply not_elem_of_empty. }
  assert (∀ i ws id,
     tasks sys !! i = Some (pc_mark ws id) ∨ tasks sys !! i = Some (pc_recv ws id)
     ∨ tasks sys !! i = Some (pc_recv_raised ws id) →
     WEBSOCKETS sys !! id = Some ws ∧ ws_id ws = id) as Hlive.
  { intros i ws id [Hi|[Hi|Hi]];
      destruct (inv_tasks _ _ HI _ _ Hi) as (? & ? & ?); done. }
  assert (∀ i id, tasks sys !! i = Some (pc_done id) → WEBSOCKETS sys !! id = None)
    as Hdead.
  { intros i id Hi. by destruct (inv_tasks _ _ HI _ _ Hi). }
  split; [done|]. split; [done|].
  intros Hc.
  destruct (inv_connected _ _ HI Hc) as (i & pc & Hi & [[ws ->]|[->|[ws ->]]]).
  - left. exists i, ws. split; [done|]. apply (Hlive i). right; by left.
  - right; left. exists i. split; [done|]. by eapply Hdead.
  - right; right. exists i, ws. split; [done|]. apply (Hlive i). right; by right.
Qed.

(** The state reached by [lost_connection_schedule]: the first task was
    closed normally, the second one was ended by the exception of line 49,
    and its entry is still there. *)
Lemma registry_follows_receive_loops_witness :
  ∃ sys out,
    run Sys_init lost_connection_schedule = Some (sys, out)
    ∧ tasks sys = [pc_done (ws_id ws1); pc_recv_raised ws2 (ws_id ws2)]
    ∧ WEBSOCKETS sys = {[ws_id ws2 := ws2]}
    ∧ connected (self sys) = true
    ∧ (∀ i ws id,
         tasks sys !! i = Some (pc_mark ws id) ∨ tasks sys !! i = Some (pc_recv ws id)
         ∨ tasks sys !! i = Some (pc_recv_raised ws id) →
         WEBSOCKETS sys !! id = Some ws ∧ ws_id ws = id)
    ∧ (∀ i id, tasks sys !! i = Some (pc_done id) → WEBSOCKETS sys !! id = None)
    ∧ (connected (self sys) = true →
       (∃ i ws, tasks sys !! i = Some (pc_recv ws (_websocket_id (self sys)))
                ∧ WEBSOCKETS sys !! _websocket_id (self sys) = Some ws
                ∧ ws_id ws = _websocket_id (self sys))
       ∨ (∃ i, tasks sys !! i = Some (pc_done (_websocket_id (self sys)))
               ∧ WEBSOCKETS sys !! _websocket_id (self sys) = None)
       ∨ (∃ i ws, tasks sys !! i = Some (pc_recv_raised ws (_websocket_id (self sys)))
                  ∧ WEBSOCKETS sys !! _websocket_id (self sys) = Some ws
                  ∧ ws_id ws = _websocket_id (self sys))).
Proof.
  eexists _, _. split; [vm_compute; reflexivity|].
  split; [reflexivity|]. split; [reflexivity|]. split; [reflexivity|].
  eapply (registry_follows_receive_loops lost_connection_schedule).
  - refine (bool_decide_unpack _ _). vm_compute. exact I.
  - vm_compute. reflexivity.
Defined.

(* ===================================================================== *)
(** ** The message list of the page *)
(* ===================================================================== *)

Lemma messages_view_lookup (log : list Message) (i : nat) :
  messages_view log !! i
  = (fun m => message_view m (Nat.eqb (i + 1) (length log))) <$> log !! i.
Proof. unfold messages_view. by rewrite list_lookup_imap. Qed.

(** The view of a log with one more entry: the boxes of the entries before
    it without the id, and the box of the new entry with it. *)
Lemma messages_view_snoc (log : list Message) (m : Message) :
  messages_view (log ++ [m])
  = ((fun x => message_view x false) <$> log) ++ [message_view m true].
Proof.
  apply list_eq. intros i. rewrite messages_view_lookup, length_app. simpl.
  destruct (decide (i < length log)) as [Hlt|Hge].
  - rewrite !lookup_app_l by (by rewrite ?length_fmap).
    rewrite list_lookup_fmap. destruct (log !! i) as [x|]; [|done]. simpl.
    replace (Nat.eqb (i + 1) (length log + 1)) with false; [done|].
    symmetry. apply Nat.eqb_neq. lia.
  - rewrite !lookup_app_r by (rewrite ?length_fmap; lia).
    rewrite length_fmap.
    destruct (i - length log) as [|k] eqn:Hk; simpl; [|done].
    replace (Nat.eqb (i + 1) (length log + 1)) with true; [done|].
    symmetry. apply Nat.eqb_eq. lia.
Qed.

Lemma boxes_with_id_not_last (log : list Message) :
  boxes_with_id "messages-end" (((fun x => message_view x false) <$> log)) = [].
Proof.
  unfold boxes_with_id. induction log as [|x log IH]; [done|].
  simpl. rewrite filter_cons_False; [done|]. simpl. discriminate.
Qed.

(** The page holds at most one box with the id "messages-end", the target
    of the scroll events: none for the empty log, and otherwise the box of
    the last entry of the log and no other, whatever texts the log holds. *)
Theorem messages_end_is_the_last_box (log : list Message) :
  boxes_with_id "messages-end" (messages_view log)
  = match last log with
    | Some m => [message_view m true]
    | None => []
    end.
Proof.
  destruct log as [|x log] using rev_ind; [done|].
  rewrite last_snoc, messages_view_snoc.
  unfold boxes_with_id. rewrite filter_app.
  fold (boxes_with_id "messages-end" (((fun x => message_view x false) <$> log))).
  rewrite boxes_with_id_not_last. simpl.
  by rewrite filter_cons_True.
Qed.

(* ===================================================================== *)
(** ** Scroll events *)
(* ===================================================================== *)

(** What one step of a task lets out: no scroll event, unless the step is
    the append of a text frame. *)
Lemma task_step_scrolls pc inp s reg pc' s' reg' out :
  task_step pc inp s reg = Some (pc', s', reg', out) →
  (∃ text, inp = Incoming (Str text)
           ∧ messages s' = messages s ++ [mkMessage server text]
           ∧ out = [Delta s'; ScrollTo "messages-end"])
  ∨ scrolls out = [].
Proof.
  intros H.
  destruct pc as [| | uri | ws id | ws id | id | e | wsr idr], inp as [| [h|] | [text|b] | |];
    simpl in H; try done; try (injection H as <- <- <- <-; by right).
  - injection H as <- <- <- <-. left. by exists text.
  - destruct (reg !! id); injection H as <- <- <- <-; by right.
Qed.

(** Whenever a handler asks the page to scroll, the target is
    "messages-end", the state that carries the new entry has been sent just
    before, and on the page of that state the target is exactly one box:
    that of the entry just appended. *)
Theorem scroll_target_is_the_new_entry
    (sys : Sys) (ev : Event) (sys' : Sys) (out : list Effect) (t : string) :
  step sys ev = Some (sys', out) →
  ScrollTo t ∈ out →
  t = "messages-end"
  ∧ (∃ rest, out = Delta (self sys') :: ScrollTo t :: rest)
  ∧ ∃ m, messages (self sys') = messages (self sys) ++ [m]
         ∧ boxes_with_id t (messages_view (messages (self sys')))
           = [message_view m true].
Proof.
  intros Hstep Hin.
  assert (∀ m, boxes_with_id "messages-end"
                 (messages_view (messages (self sys) ++ [m]))
               = [message_view m true]) as Hview.
  { intros m. by rewrite messages_end_is_the_last_box, last_snoc. }
  destruct ev as [| v | v | | | j inp | k]; simpl in Hstep.
  - injection Hstep as <- <-. by apply list_elem_of_singleton in Hin.
  - injection Hstep as <- <-. by apply list_elem_of_singleton in Hin.
  - injection Hstep as <- <-. by apply list_elem_of_singleton in Hin.
  - unfold send_message in Hstep.
    destruct (WEBSOCKETS sys !! _) as [h|]; injection Hstep as <- <-; simpl in *.
    + assert (t = "messages-end") as ->.
      { apply elem_of_cons in Hin as [?|Hin]; [done|].
        apply elem_of_cons in Hin as [[= ->]|Hin]; [done|].
        apply elem_of_cons in Hin as [?|Hin]; [done|].
        destruct (ws_send _ _ _); simpl in Hin;
          [by apply elem_of_nil in Hin|by apply list_elem_of_singleton in Hin]. }
      split; [done|]. split; [by eexists|]. eexists. split; [done|].
      by apply Hview.
    + assert (t = "messages-end") as ->.
      { apply elem_of_cons in Hin as [?|Hin]; [done|].
        apply elem_of_cons in Hin as [[= ->]|Hin]; [done|].
        by apply elem_of_nil in Hin. }
      split; [done|]. split; [by eexists|]. eexists. split; [done|].
      by apply Hview.
  - injection Hstep as <- <-. by apply elem_of_nil in Hin.
  - destruct (tasks sys !! j) as [pc|] eqn:Hj; [|done].
    destruct (task_step pc inp (self sys) (WEBSOCKETS sys))
      as [[[[pc' s] reg] out']|] eqn:Htask; [|done].
    injection Hstep as <- <-. simpl.
    destruct (task_step_scrolls _ _ _ _ _ _ _ _ Htask)
      as [(text & -> & Hlog & ->)|Hnone].
    + assert (t = "messages-end") as ->.
      { apply elem_of_cons in Hin as [?|Hin]; [done|].
        apply list_elem_of_singleton in Hin. by injection Hin. }
      split; [done|]. split; [by eexists|]. eexists. split; [done|].
      rewrite Hlog. by apply Hview.
    + exfalso. assert (t ∈ scrolls out') as Ht.
      { unfold scrolls. apply list_elem_of_omap. by exists (ScrollTo t). }
      rewrite Hnone in Ht. by apply elem_of_nil in Ht.
  - injection Hstep as <- <-. by apply elem_of_nil in Hin.
Qed.

(** What one event does to the log and to the scroll events: an appending
    event adds one entry and one scroll event; the reset of a connect task
    empties the log; nothing else touches the log or asks for a scroll. *)
Lemma step_log_and_scrolls sys ev sys' out :
  step sys ev = Some (sys', out) →
  scrolls out = (if appending ev then ["messages-end"] else [])
  ∧ ((∃ m, appending ev = true
           ∧ messages (self sys') = messages (self sys) ++ [m])
     ∨ (appending ev = false ∧ messages (self sys') = messages (self sys))
     ∨ (∃ j, ev = EvTask j Tick ∧ tasks sys !! j = Some pc_reset
             ∧ messages (self sys') = [])).
Proof.
  intros Hstep.
  destruct ev as [| v | v | | | j inp | k]; simpl in Hstep.
  - injection Hstep as <- <-. split; [done|]. right; left. done.
  - injection Hstep as <- <-. split; [done|]. right; left. done.
  - injection Hstep as <- <-. split; [done|]. right; left. done.
  - unfold send_message in Hstep.
    destruct (WEBSOCKETS sys !! _) as [h|]; injection Hstep as <- <-; simpl.
    + split; [by destruct (ws_send _ _ _)|]. left. by eexists.
    + split; [done|]. left. by eexists.
  - injection Hstep as <- <-. split; [done|]. right; left. done.
  - destruct (tasks sys !! j) as [pc|] eqn:Hj; [|done].
    destruct (task_step pc inp (self sys) (WEBSOCKETS sys))
      as [[[[pc' s] reg] out']|] eqn:Htask; [|done].
    injection Hstep as <- <-. simpl.
    destruct pc as [| | uri | ws id | ws id | id | e | wsr idr],
             inp as [| [h|] | [text|b] | |];
      simpl in Htask; try done;
      try (injection Htask as <- <- <- <-; split; [done|]; right; left; done).
    + injection Htask as <- <- <- <-. split; [done|]. right; right. by exists j.
    + injection Htask as <- <- <- <-. split; [done|]. left. by eexists.
    + destruct (WEBSOCKETS sys !! id); injection Htask as <- <- <- <-;
        (split; [done|]); right; left; done.
  - injection Hstep as <- <-. split; [done|]. right; left. done.
Qed.

(** One scroll event per appended entry, in every schedule: the scroll
    events let out are as many as the submits of the message form and the
    text frames handed to tasks, and each is for "messages-end". *)
Theorem one_scroll_per_append
    (sys : Sys) (evs : list Event) (sys' : Sys) (out : list Effect) :
  run sys evs = Some (sys', out) →
  scrolls out = (fun _ => "messages-end") <$> List.filter appending evs.
Proof.
  revert sys out. induction evs as [|ev evs IH]; intros sys out Hrun.
  - by injection Hrun as <- <-.
  - rewrite run_cons in Hrun.
    destruct (step sys ev) as [[sys1 out1]|] eqn:Hstep; [|done].
    destruct (run sys1 evs) as [[sys2 out2]|] eqn:Hrun1; [|done].
    injection Hrun as <- <-.
    destruct (step_log_and_scrolls _ _ _ _ Hstep) as [Hs _].
    unfold scrolls in *. rewrite omap_app, Hs, (IH _ _ Hrun1). simpl.
    by destruct (appending ev).
Qed.

(** The log is only ever extended at its end, one entry at a time, or
    emptied by the reset at the start of a connect: no handler removes,
    reorders or rewrites entries. *)
Theorem log_is_extended_or_reset
    (sys : Sys) (ev : Event) (sys' : Sys) (out : list Effect) :
  step sys ev = Some (sys', out) →
  (∃ m, messages (self sys') = messages (self sys) ++ [m])
  ∨ messages (self sys') = messages (self sys)
  ∨ (messages (self sys') = []
     ∧ ∃ j, ev = EvTask j Tick ∧ tasks sys !! j = Some pc_reset).
Proof.
  intros Hstep.
  destruct (step_log_and_scrolls _ _ _ _ Hstep)
    as [_ [(m & _ & H)|[[_ H]|(j & ? & ? & H)]]].
  - left. by exists m.
  - right; left. done.
  - right; right. split; [done|]. by exists j.
Qed.

(* ===================================================================== *)
(** ** What is sent during one connection *)
(* ===================================================================== *)

Lemma user_texts_app l1 l2 : user_texts (l1 ++ l2) = user_texts l1 ++ user_texts l2.
Proof. apply omap_app. Qed.

Lemma sent_app o1 o2 : sent (o1 ++ o2) = sent o1 ++ sent o2.
Proof. apply omap_app. Qed.

Lemma sent_uncaught {A} (r : Result A) : sent (uncaught r) = [].
Proof. by destruct r. Qed.

(** While task [i] is in its receive loop and the session's id is that of
    its connection, every submit of the message form is logged and handed to
    [send] of that connection: the user entries added to the log are the
    drafts as the edits and submits of the schedule make them, and the calls
    of [send] carry the same texts, in the same order, all on the handle of
    task [i]. *)
Theorem sent_is_what_is_logged
    (sys : Sys) (i : nat) (ws : ClientConnection) (id : string) (evs : list Event) :
  tasks sys !! i = Some (pc_recv ws id) →
  _websocket_id (self sys) = id →
  WEBSOCKETS sys !! id = Some ws →
  forallb (epoch_event i) evs = true →
  ∃ sys' out more,
    run sys evs = Some (sys', out)
    ∧ messages (self sys') = messages (self sys) ++ more
    ∧ user_texts more = drafts (message_buffer (self sys)) evs
    ∧ sent out = (fun data => (ws, data)) <$> user_texts more.
Proof.
  revert sys. induction evs as [|ev evs IH]; intros sys Hpc Hid Hreg Hevs.
  - exists sys, [], []. simpl. by rewrite app_nil_r.
  - simpl in Hevs. apply andb_true_iff in Hevs as [Hev Hevs].
    assert (∀ sys1 out1 more1,
      step sys ev = Some (sys1, out1) →
      tasks sys1 !! i = Some (pc_recv ws id) →
      _websocket_id (self sys1) = id →
      WEBSOCKETS sys1 !! id = Some ws →
      messages (self sys1) = messages (self sys) ++ more1 →
      drafts (message_buffer (self sys)) (ev :: evs)
      = user_texts more1 ++ drafts (message_buffer (self sys1)) evs →
      sent out1 = (fun data => (ws, data)) <$> user_texts more1 →
      ∃ sys' out more,
        run sys (ev :: evs) = Some (sys', out)
        ∧ messages (self sys') = messages (self sys) ++ more
        ∧ user_texts more = drafts (message_buffer (self sys)) (ev :: evs)
        ∧ sent out = (fun data => (ws, data)) <$> user_texts more) as Hcont.
    { intros sys1 out1 more1 Hstep Hpc1 Hid1 Hreg1 Hlog1 Hdr1 Hsent1.
      destruct (IH sys1 Hpc1 Hid1 Hreg1 Hevs)
        as (sys2 & out2 & more2 & Hrun & Hlog2 & Hdr2 & Hsent2).
      exists sys2, (out1 ++ out2), (more1 ++ more2).
      rewrite run_cons, Hstep, Hrun. split; [done|].
      split; [by rewrite Hlog2, Hlog1, app_assoc|].
      split; [by rewrite user_texts_app, Hdr2, Hdr1|].
      by rewrite sent_app, Hsent1, Hsent2, user_texts_app, fmap_app. }
    destruct ev as [| v | v | | | j inp | k]; simpl in Hev.
    + eapply (Hcont _ _ []); [reflexivity|..]; simpl; rewrite ?app_nil_r; done.
    + eapply (Hcont _ _ []); [reflexivity|..]; simpl; rewrite ?app_nil_r; done.
    + eapply (Hcont _ _ []); [reflexivity|..]; simpl; rewrite ?app_nil_r; done.
    + eapply (Hcont _ _ [mkMessage user (message_buffer (self sys))]).
      * simpl. unfold send_message. simpl. rewrite Hid, Hreg. reflexivity.
      * done.
      * done.
      * done.
      * done.
      * done.
      * simpl. by rewrite sent_uncaught.
    + eapply (Hcont _ _ []); [reflexivity|..]; simpl; rewrite ?app_nil_r;
        try done.
      by apply lookup_app_l_Some.
    + destruct inp as [| r | m | |]; try done.
      apply Nat.eqb_eq in Hev as ->.
      destruct m as [text|b].
      * eapply (Hcont _ _ [mkMessage server text]);
          [by eapply step_task|simpl..]; try done.
        by eapply lookup_task_insert.
      * eapply (Hcont _ _ []); [by eapply step_task|simpl..]; try done.
        -- by eapply lookup_task_insert.
        -- by rewrite app_nil_r.
    + eapply (Hcont _ _ []); [reflexivity|..]; simpl; rewrite ?app_nil_r; done.
Qed.

(* ===================================================================== *)
(** ** Page load after a close *)
(* ===================================================================== *)

(** Provided every connection has an id of its own, a page load in any
    state the session can reach leaves [connected] set exactly when the
    session's id is non-empty and is the id of a task that is in its
    receive loop or that the exception of line 49 ended, and then the id is
    a key of [_WEBSOCKETS] mapped to the handle of that task.  So the page
    load that follows a normal close shows the session as not connected,
    and the one that follows an abnormal close shows it as connected, on a
    connection that is gone. *)
Theorem on_load_restores_consistency
    (evs : list Event) (sys : Sys) (out : list Effect) :
  NoDup (handshake_ids evs) →
  run Sys_init evs = Some (sys, out) →
  ∃ sys',
    step sys EvOnLoad = Some (sys', [Delta (self sys')])
    ∧ registry_consistent sys'
    ∧ (connected (self sys') = true
       ↔ _websocket_id (self sys) ≠ ""
         ∧ ∃ i ws,
             tasks sys !! i = Some (pc_recv ws (_websocket_id (self sys)))
             ∨ tasks sys !! i = Some (pc_recv_raised ws (_websocket_id (self sys))))
    ∧ ((∃ i, tasks sys !! i = Some (pc_done (_websocket_id (self sys))))
       → connected (self sys') = false).
Proof.
  intros Hnd Hrun.
  destruct (Inv_run ∅ Sys_init evs sys out Inv_init Hrun Hnd) as [used HI].
  { intros id _. apply not_elem_of_empty. }
  exists (mkSys (on_load (WEBSOCKETS sys) (self sys)) (WEBSOCKETS sys) (closed sys)
            (tasks sys)).
  split; [reflexivity|]. simpl.
  assert (connected (on_load (WEBSOCKETS sys) (self sys)) = true
          ↔ _websocket_id (self sys) ≠ ""
            ∧ ∃ i ws,
                tasks sys !! i = Some (pc_recv ws (_websocket_id (self sys)))
                ∨ tasks sys !! i
                  = Some (pc_recv_raised ws (_websocket_id (self sys))))
    as Hiff.
  { unfold on_load; simpl.
    rewrite andb_true_iff, bool_of_str_true, bool_decide_eq_true, elem_of_dom.
    split.
    - intros [Hne [h Hh]]. split; [done|].
      destruct (inv_id _ _ HI) as [?|(i & pc & Hi & [[ws ->]|[->|[ws ->]]])];
        [done| | |].
      + exists i, ws. by left.
      + destruct (inv_tasks _ _ HI _ _ Hi) as [Hnone _]. by rewrite Hnone in Hh.
      + exists i, ws. by right.
    - intros [Hne (i & ws & [Hi|Hi])]; (split; [done|]);
        destruct (inv_tasks _ _ HI _ _ Hi) as (_ & Hsome & _); by exists ws. }
  split; [|split; [done|]].
  - intros Hc. simpl in Hc. apply Hiff in Hc as [_ (i & ws & [Hi|Hi])];
      destruct (inv_tasks _ _ HI _ _ Hi) as (Hid & Hsome & _);
      exists ws; simpl; by rewrite Hsome, <- Hid.
  - intros [i Hi]. destruct (inv_tasks _ _ HI _ _ Hi) as [Hnone _].
    unfold on_load; simpl. apply andb_false_iff. right.
    apply bool_decide_eq_false. by apply not_elem_of_dom.
Qed.

(* ===================================================================== *)
(** ** Entries and tasks *)
(* ===================================================================== *)




(* ===================================================================== *)
(** ** Exceptions *)
(* ===================================================================== *)

Lemma raised_app o1 o2 : raised (o1 ++ o2) = raised o1 ++ raised o2.
Proof. apply omap_app. Qed.

(** The exceptions of one step taken where the invariant holds. *)
Lemma Inv_step_raised used sys ev sys' out e :
  Inv used sys →
  step sys ev = Some (sys', out) →
  e ∈ raised out →
  e = OpenError ∨ e = ConnectionClosed ∨ e = ConnectionClosedError.
Proof.
  intros HI Hstep He.
  destruct ev as [| v | v | | | j inp | k]; simpl in Hstep;
    try (injection Hstep as <- <-; by apply elem_of_nil in He).
  - unfold send_message in Hstep.
    destruct (WEBSOCKETS sys !! _) as [h|]; injection Hstep as <- <-; simpl in He.
    + unfold ws_send in He. case_bool_decide; simpl in He.
      * apply list_elem_of_singleton in He. right; by left.
      * by apply elem_of_nil in He.
    + by apply elem_of_nil in He.
  - destruct (tasks sys !! j) as [pc|] eqn:Hj; [|done].
    destruct (task_step pc inp (self sys) (WEBSOCKETS sys))
      as [[[[pc' s] reg] out']|] eqn:Htask; [|done].
    injection Hstep as <- <-.
    pose proof (inv_tasks _ _ HI j pc Hj) as Hok.
    destruct pc as [| | uri | ws0 id0 | ws0 id0 | id0 | e0 | ws0r id0r],
             inp as [| [h|] | [text|b] | |];
      simpl in Htask; try done;
      try (injection Htask as <- <- <- <-; by apply elem_of_nil in He).
    + injection Htask as <- <- <- <-. apply list_elem_of_singleton in He. by left.
    + simpl in Hok. destruct Hok as (_ & Hsome & _). rewrite Hsome in Htask.
      injection Htask as <- <- <- <-. by apply elem_of_nil in He.
    + injection Htask as <- <- <- <-. apply list_elem_of_singleton in He.
      right; by right.
Qed.

(** Provided every connection has an id of its own, the only exceptions
    that ever leave a handler are the failure of [connect(url)], the failure
    of [send] and the failure of the receive at line 49; a [KeyError] never
    does: whenever the loop of a task comes to its normal end,
    [del _WEBSOCKETS[websocket_id]] at line 57 finds its key, and the task
    ends with its entry removed. *)
Theorem del_finds_its_key
    (evs : list Event) (sys : Sys) (out : list Effect) :
  NoDup (handshake_ids evs) →
  run Sys_init evs = Some (sys, out) →
  (∀ e, e ∈ raised out →
     e = OpenError ∨ e = ConnectionClosed ∨ e = ConnectionClosedError)
  ∧ ∀ i ws id, tasks sys !! i = Some (pc_recv ws id) →
      ∃ sys', step sys (EvTask i EndOfStream) = Some (sys', [])
              ∧ tasks sys' !! i = Some (pc_done id)
              ∧ WEBSOCKETS sys' = delete id (WEBSOCKETS sys).
Proof.
  intros Hnd Hrun. split.
  - assert (∀ used sys0, Inv used sys0 →
              (∀ id, id ∈ handshake_ids evs → id ∉ used) →
              run sys0 evs = Some (sys, out) →
              ∀ e, e ∈ raised out →
                e = OpenError ∨ e = ConnectionClosed ∨ e = ConnectionClosedError)
      as H.
    { clear Hrun. revert out Hnd.
      induction evs as [|ev evs IH]; intros out Hnd used sys0 HI Hfresh Hrun e He.
      - injection Hrun as <- <-. by apply elem_of_nil in He.
      - rewrite run_cons in Hrun.
        destruct (step sys0 ev) as [[sys1 out1]|] eqn:Hstep; [|done].
        destruct (run sys1 evs) as [[sys2 out2]|] eqn:Hrun1; [|done].
        injection Hrun as <- <-.
        rewrite raised_app in He. apply elem_of_app in He as [He|He].
        + by eapply Inv_step_raised.
        + unfold handshake_ids in *. simpl in Hnd, Hfresh.
          assert (NoDup (omap handshake_id evs)) as Hnd'.
          { destruct (handshake_id ev); [by apply NoDup_cons in Hnd as [_ ?]|done]. }
          eapply (IH out2 Hnd' (used_after used ev) sys1); [| | done | done].
          * eapply Inv_step; [done|done|]. intros id Hid. apply Hfresh.
            rewrite Hid. by left.
          * intros id Hid. unfold used_after.
            destruct (handshake_id ev) as [id0|] eqn:Hev.
            -- apply NoDup_cons in Hnd as [Hnotin _].
               intros [Hin|Hin]%elem_of_union.
               ++ apply elem_of_singleton in Hin as ->. done.
               ++ by eapply Hfresh; [right|].
            -- by apply Hfresh. }
    eapply (H ∅ Sys_init Inv_init); [|done].
    intros id _. apply not_elem_of_empty.
  - destruct (Inv_run ∅ Sys_init evs sys out Inv_init Hrun Hnd) as [used HI].
    { intros id _. apply not_elem_of_empty. }
    intros i ws id Hi.
    destruct (inv_tasks _ _ HI _ _ Hi) as (_ & Hsome & _).
    eexists. split.
    + eapply step_task; [done|]. simpl. by rewrite Hsome.
    + simpl. split; [by eapply lookup_task_insert|done].
Qed.

(** Two tasks that hold the same id share one entry: the first of them to
    reach the end of its loop deletes it, and the second one finds no key
    at line 57 and ends with a [KeyError]. *)
Theorem del_raises_on_shared_id
    (sys : Sys) (i j : nat) (wsi wsj : ClientConnection) (id : string) :
  tasks sys !! i = Some (pc_recv wsi id) →
  tasks sys !! j = Some (pc_recv wsj id) →
  i ≠ j →
  is_Some (WEBSOCKETS sys !! id) →
  ∃ sys',
    run sys [EvTask i EndOfStream; EvTask j EndOfStream]
    = Some (sys', [Uncaught (KeyError id)])
    ∧ tasks sys' !! i = Some (pc_done id)
    ∧ tasks sys' !! j = Some (pc_raised (KeyError id))
    ∧ WEBSOCKETS sys' = delete id (WEBSOCKETS sys)
    ∧ self sys' = self sys.
Proof.
  intros Hi Hj Hne [h Hh].
  exists (mkSys (self sys) (delete id (WEBSOCKETS sys)) (closed sys)
            (<[j := pc_raised (KeyError id)]> (<[i := pc_done id]> (tasks sys)))).
  assert (<[i := pc_done id]> (tasks sys) !! j = Some (pc_recv wsj id)) as Hj'.
  { by rewrite list_lookup_insert_ne. }
  split.
  - simpl. rewrite Hi. simpl. rewrite Hh. simpl. rewrite Hj'. simpl.
    by rewrite lookup_delete_eq.
  - simpl. split.
    + rewrite list_lookup_insert_ne by done. by eapply lookup_task_insert.
    + split; [by eapply lookup_task_insert|done].
Qed.

(* ===================================================================== *)
(** ** Connecting again *)
(* ===================================================================== *)

(** A connect on a session whose earlier connection is still open neither
    closes nor unregisters that connection: when the new connection is
    marked connected both handles are registered, the task of the earlier
    one is still in its receive loop, and a text frame that arrives on the
    earlier connection is appended to the log that the new connect has
    emptied. *)
Theorem connect_keeps_the_earlier_connection
    (sys : Sys) (i j : nat) (ws ws' : ClientConnection) (id text : string) :
  tasks sys !! i = Some (pc_recv ws id) →
  tasks sys !! j = Some pc_reset →
  WEBSOCKETS sys !! id = Some ws →
  ws_id ws' ≠ id →
  ∃ sys' out,
    run sys [EvTask j Tick; EvTask j Tick; EvTask j (Handshake (Some ws'));
             EvTask j Tick; EvTask i (Incoming (Str text))]
    = Some (sys', out)
    ∧ tasks sys' !! i = Some (pc_recv ws id)
    ∧ tasks sys' !! j = Some (pc_recv ws' (ws_id ws'))
    ∧ WEBSOCKETS sys' = <[ws_id ws' := ws']> (WEBSOCKETS sys)
    ∧ WEBSOCKETS sys' !! id = Some ws
    ∧ connected (self sys') = true
    ∧ _websocket_id (self sys') = ws_id ws'
    ∧ messages (self sys') = [mkMessage server text].
Proof.
  intros Hi Hj Hreg Hne.
  assert (i ≠ j) as Hij by (intros ->; rewrite Hi in Hj; done).
  pose proof (lookup_task_insert _ _ _ pc_open Hj) as Hj1.
  pose proof (lookup_task_insert _ _ _ (pc_handshake (server_url (self sys))) Hj1)
    as Hj2.
  pose proof (lookup_task_insert _ _ _ (pc_mark ws' (ws_id ws')) Hj2) as Hj3.
  pose proof (lookup_task_insert _ _ _ (pc_recv ws' (ws_id ws')) Hj3) as Hj4.
  eexists _, _. split.
  { simpl. rewrite Hj. simpl. rewrite Hj1. simpl. rewrite Hj2. simpl.
    rewrite Hj3. simpl.
    rewrite !(list_lookup_insert_ne _ j i) by done. rewrite Hi. simpl.
    reflexivity. }
  simpl. split.
  { rewrite (lookup_task_insert _ _ (pc_recv ws id)); [done|].
    by rewrite !(list_lookup_insert_ne _ j i). }
  split.
  { rewrite list_lookup_insert_ne by done. exact Hj4. }
  split; [done|]. split; [|done].
  by rewrite lookup_insert_ne.
Qed.

(* ===================================================================== *)
(** ** Sending while not connected *)
(* ===================================================================== *)

(** What holds of a reachable session next to [Inv], when no connection
    carries the empty id: the registry has no entry under the empty id, and
    none under the session's id while [connected] is not set. *)
Lemma send_message_state closed reg s :
  (send_message closed reg s).1.2
  = set_messages (messages s ++ [mkMessage user (message_buffer s)])
      (set_message_buffer "" s).
Proof. unfold send_message. simpl. by destruct (reg !! _websocket_id s). Qed.

Lemma idle_step used sys ev sys' out :
  "" ∈ used →
  Inv used sys →
  WEBSOCKETS sys !! "" = None →
  (connected (self sys) = false → WEBSOCKETS sys !! _websocket_id (self sys) = None) →
  step sys ev = Some (sys', out) →
  (∀ id, handshake_id ev = Some id → id ∉ used) →
  WEBSOCKETS sys' !! "" = None
  ∧ (connected (self sys') = false
     → WEBSOCKETS sys' !! _websocket_id (self sys') = None).
Proof.
  intros Hempty HI H0 Hidle Hstep Hfresh.
  destruct ev as [| v | v | | | j inp | k]; simpl in Hstep.
  - injection Hstep as <- <-. split; [done|]. unfold on_load; simpl.
    intros [Hc|Hc]%andb_false_iff.
    + unfold bool_of_str in Hc. apply negb_false_iff, String.eqb_eq in Hc.
      by rewrite Hc.
    + apply bool_decide_eq_false in Hc. by apply not_elem_of_dom.
  - injection Hstep as <- <-. by split.
  - injection Hstep as <- <-. by split.
  - pose proof (send_message_state (closed sys) (WEBSOCKETS sys) (self sys)) as Hst.
    destruct (send_message _ _ _) as [[r s] o]. simpl in Hst. subst s.
    injection Hstep as <- <-. by split.
  - injection Hstep as <- <-. by split.
  - destruct (tasks sys !! j) as [pc|] eqn:Hj; [|done].
    destruct (task_step pc inp (self sys) (WEBSOCKETS sys))
      as [[[[pc' s] reg] out']|] eqn:Htask; [|done].
    injection Hstep as <- <-. simpl.
    destruct pc as [| | uri | ws0 id0 | ws0 id0 | id0 | e0 | ws0r id0r],
             inp as [| [h|] | [text|b] | |];
      simpl in Htask; try done;
      try (injection Htask as <- <- <- <-; by split).
    + (* lines 44-45 *)
      injection Htask as <- <- <- <-.
      assert (ws_id h ∉ used) as Hnew by (by apply Hfresh).
      split.
      * rewrite lookup_insert_ne; [done|]. intros Heq. apply Hnew. by rewrite Heq.
      * intros Hc. rewrite lookup_insert_ne; [by apply Hidle|].
        intros Heq. apply Hnew. rewrite Heq.
        destruct (inv_id _ _ HI) as [->|(i & pc & Hi & Hm)]; [done|].
        eapply (pc_ok_id _ _ pc); [by eapply inv_tasks|].
        by destruct Hm as [[ws ->]|[->|[ws ->]]].
    + (* line 57 *)
      destruct (WEBSOCKETS sys !! id0) as [h0|] eqn:Hid0;
        injection Htask as <- <- <- <-; [|by split].
      split.
      * apply lookup_delete_None. by right.
      * intros Hc. apply lookup_delete_None. right. by apply Hidle.
  - injection Hstep as <- <-. by split.
Qed.

(** Provided every connection has a non-empty id of its own: in every state
    a session can reach in which [connected] is not set (before the first
    connect, while a connect is under way, after a failed one, after a page
    load that followed a close), a submit of the message form is logged and
    scrolled to as ever, but [send] is not called, and nothing is raised. *)
Theorem send_while_not_connected_is_dropped
    (evs : list Event) (sys : Sys) (out : list Effect) :
  NoDup (handshake_ids evs) →
  "" ∉ handshake_ids evs →
  run Sys_init evs = Some (sys, out) →
  connected (self sys) = false →
  WEBSOCKETS sys !! _websocket_id (self sys) = None
  ∧ ∃ s',
      send_message (closed sys) (WEBSOCKETS sys) (self sys)
      = (Ret tt, s', [Delta s'; ScrollTo "messages-end"])
      ∧ messages s'
        = messages (self sys) ++ [mkMessage user (message_buffer (self sys))].
Proof.
  intros Hnd Hne Hrun Hc.
  assert (∀ used sys0,
            "" ∈ used → Inv used sys0 → WEBSOCKETS sys0 !! "" = None →
            (connected (self sys0) = false
             → WEBSOCKETS sys0 !! _websocket_id (self sys0) = None) →
            (∀ id, id ∈ handshake_ids evs → id ∉ used) →
            run sys0 evs = Some (sys, out) →
            connected (self sys) = false
            → WEBSOCKETS sys !! _websocket_id (self sys) = None) as H.
  { clear Hrun Hc Hne. revert out Hnd.
    induction evs as [|ev evs IH];
      intros out Hnd used sys0 Hempty HI H0 Hidle Hfresh Hrun.
    - by injection Hrun as <- <-.
    - rewrite run_cons in Hrun.
      destruct (step sys0 ev) as [[sys1 out1]|] eqn:Hstep; [|done].
      destruct (run sys1 evs) as [[sys2 out2]|] eqn:Hrun1; [|done].
      injection Hrun as <- <-.
      unfold handshake_ids in *. simpl in Hnd, Hfresh.
      assert (∀ id, handshake_id ev = Some id → id ∉ used) as Hfresh1.
      { intros id Hid. apply Hfresh. rewrite Hid. by left. }
      assert (NoDup (omap handshake_id evs)) as Hnd'.
      { destruct (handshake_id ev); [by apply NoDup_cons in Hnd as [_ ?]|done]. }
      destruct (idle_step _ _ _ _ _ Hempty HI H0 Hidle Hstep Hfresh1) as [H0' Hidle'].
      eapply (IH out2 Hnd' (used_after used ev) sys1); try done.
      + by apply used_after_mono.
      + by eapply Inv_step.
      + intros id Hid. unfold used_after.
        destruct (handshake_id ev) as [id0|] eqn:Hev.
        * apply NoDup_cons in Hnd as [Hnotin _].
          intros [Hin|Hin]%elem_of_union.
          -- apply elem_of_singleton in Hin as ->. done.
          -- by eapply Hfresh; [right|].
        * by apply Hfresh. }
  assert (WEBSOCKETS sys !! _websocket_id (self sys) = None) as Hnone.
  { assert (Inv {[""]} Sys_init) as HI0.
    { destruct Inv_init as [H1 H2 H3 H4]. by split. }
    assert (∀ id, id ∈ handshake_ids evs → id ∉ ({[""]} : gset string)) as Hf0.
    { intros id Hid Hin. apply elem_of_singleton in Hin as ->. done. }
    by apply (H {[""]} Sys_init). }
  split; [done|].
  unfold send_message. simpl. rewrite Hnone. by eexists.
Qed.

(* ===================================================================== *)
(** ** The url that is dialled *)
(* ===================================================================== *)

(** An edit of the url followed by a submit of the connect form: the reset
    leaves the url alone, and the connection is opened on the edited url,
    whatever the session held before. *)
Theorem connect_dials_the_edited_url (sys : Sys) (value : string) :
  ∃ sys' s1 s2,
    run sys [EvUpdateServerUrl value; EvConnect;
             EvTask (length (tasks sys)) Tick; EvTask (length (tasks sys)) Tick]
    = Some (sys', [Delta s1; Delta s2; NetConnect value])
    ∧ tasks sys' !! length (tasks sys) = Some (pc_handshake value)
    ∧ server_url (self sys') = value
    ∧ message_buffer (self sys') = message_buffer (self sys)
    ∧ messages (self sys') = []
    ∧ WEBSOCKETS sys' = WEBSOCKETS sys.
Proof.
  destruct sys as [s reg cl ts]. cbn [tasks self WEBSOCKETS closed].
  set (n := length ts).
  set (s0 := update_server_url value s).
  set (s1 := set_websocket_id "" (set_connected false (set_messages [] s0))).
  assert ((ts ++ [pc_reset]) !! n = Some pc_reset) as Hn.
  { unfold n. rewrite lookup_app_r by lia. by rewrite Nat.sub_diag. }
  pose proof (lookup_task_insert _ _ _ pc_open Hn) as Hn1.
  pose proof (lookup_task_insert _ _ _ (pc_handshake value) Hn1) as Hn2.
  exists (mkSys s1 reg cl
            (<[n := pc_handshake value]> (<[n := pc_open]> (ts ++ [pc_reset])))),
         s0, s1.
  split; [|by repeat split].
  rewrite run_cons.
  change (step (mkSys s reg cl ts) (EvUpdateServerUrl value))
    with (Some (mkSys s0 reg cl ts, [Delta s0])).
  cbv beta iota. rewrite run_cons.
  change (step (mkSys s0 reg cl ts) EvConnect)
    with (Some (mkSys s0 reg cl (ts ++ [pc_reset]), @nil Effect)).
  cbv beta iota. rewrite run_cons.
  rewrite (step_task (mkSys s0 reg cl (ts ++ [pc_reset])) n Tick pc_reset pc_open
             s1 reg [Delta s1] Hn eq_refl).
  cbv beta iota. cbn [tasks self WEBSOCKETS closed].
  rewrite run_cons.
  rewrite (step_task (mkSys s1 reg cl (<[n := pc_open]> (ts ++ [pc_reset])))
             n Tick pc_open (pc_handshake value) s1 reg [NetConnect value]
             Hn1 eq_refl).
  reflexivity.
Qed.

(* ===================================================================== *)
(** ** A connection that is lost *)
(* ===================================================================== *)

(** When the receive of a task raises, the handle of the dead connection
    stays in [_WEBSOCKETS] and [connected] stays set: a page load after it
    computes [connected] as true again, and the next submit of the message
    form logs the draft, calls [send] on the dead connection and ends with
    [ConnectionClosed]. *)
Theorem send_on_a_lost_connection_raises
    (sys : Sys) (i : nat) (ws : ClientConnection) :
  tasks sys !! i = Some (pc_recv ws (ws_id ws)) →
  WEBSOCKETS sys !! ws_id ws = Some ws →
  _websocket_id (self sys) = ws_id ws →
  ws_id ws ≠ "" →
  ws_id ws ∈ closed sys →
  ∃ sys' out,
    run sys [EvTask i RecvError; EvOnLoad; EvSendMessage] = Some (sys', out)
    ∧ tasks sys' !! i = Some (pc_recv_raised ws (ws_id ws))
    ∧ WEBSOCKETS sys' = WEBSOCKETS sys
    ∧ connected (self sys') = true
    ∧ _websocket_id (self sys') = ws_id ws
    ∧ messages (self sys')
      = messages (self sys) ++ [mkMessage user (message_buffer (self sys))]
    ∧ sent out = [(ws, message_buffer (self sys))]
    ∧ raised out = [ConnectionClosedError; ConnectionClosed].
Proof.
  destruct sys as [s reg cl ts]. cbn [tasks self WEBSOCKETS closed].
  intros Hpc Hreg Hid Hne Hcl.
  set (ts1 := <[i := pc_recv_raised ws (ws_id ws)]> ts).
  set (s2 := on_load reg s).
  assert (connected s2 = true) as Hc2.
  { unfold s2, on_load. simpl. apply andb_true_iff. split.
    - apply bool_of_str_true. by rewrite Hid.
    - apply bool_decide_eq_true, elem_of_dom. rewrite Hid. by exists ws. }
  assert (step (mkSys s reg cl ts) (EvTask i RecvError)
          = Some (mkSys s reg cl ts1, [Uncaught ConnectionClosedError])) as Hstep1.
  { by apply (step_task (mkSys s reg cl ts) i RecvError (pc_recv ws (ws_id ws))). }
  assert (step (mkSys s reg cl ts1) EvOnLoad
          = Some (mkSys s2 reg cl ts1, [Delta s2])) as Hstep2 by reflexivity.
  set (s3 := set_messages (messages s2 ++ [mkMessage user (message_buffer s2)])
               (set_message_buffer "" s2)).
  assert (step (mkSys s2 reg cl ts1) EvSendMessage
          = Some (mkSys s3 reg cl ts1,
                  [Delta s3; ScrollTo "messages-end"; WsSend ws (message_buffer s2);
                   Uncaught ConnectionClosed])) as Hstep3.
  { simpl. unfold send_message. simpl.
    replace (_websocket_id s) with (ws_id ws). rewrite Hreg.
    unfold ws_send. by rewrite bool_decide_eq_true_2. }
  eexists _, _. split.
  { rewrite run_cons, Hstep1. cbv beta iota.
    rewrite run_cons, Hstep2. cbv beta iota.
    rewrite (run_one _ _ _ _ Hstep3). reflexivity. }
  split; [by eapply lookup_task_insert|].
  repeat (split; [done|]). done.
Qed.

(* ===================================================================== *)
(** ** The page shows the log *)
(* ===================================================================== *)

(** The message list of the page has one box per entry of the log, in log
    order, each with the text of its entry and labelled by its role. *)
Theorem page_shows_the_log_in_order (log : list Message) :
  box_text <$> messages_view log = text <$> log
  ∧ box_label <$> messages_view log
    = (fun m => match role m with user => "You" | server => "Server" end) <$> log
  ∧ length (messages_view log) = length log.
Proof.
  split; [|split].
  - apply list_eq. intros i.
    rewrite !list_lookup_fmap, messages_view_lookup.
    by destruct (log !! i).
  - apply list_eq. intros i.
    rewrite !list_lookup_fmap, messages_view_lookup.
    destruct (log !! i) as [[[] t]|]; done.
  - unfold messages_view. apply length_imap.
Qed.

(* ===================================================================== *)
(** ** The theorems at sample sessions *)
(* ===================================================================== *)

(** A text frame arrives in [sys_listening]. *)
Lemma scroll_target_is_the_new_entry_witness :
  ∃ sys' out,
    step sys_listening (EvTask 0 (Incoming (Str "a"))) = Some (sys', out)
    ∧ "messages-end" = "messages-end"
    ∧ (∃ rest, out = Delta (self sys') :: ScrollTo "messages-end" :: rest)
    ∧ ∃ m, messages (self sys') = messages (self sys_listening) ++ [m]
           ∧ boxes_with_id "messages-end" (messages_view (messages (self sys')))
             = [message_view m true].
Proof.
  eexists _, _. split; [vm_compute; reflexivity|].
  eapply (scroll_target_is_the_new_entry sys_listening
            (EvTask 0 (Incoming (Str "a")))).
  - vm_compute. reflexivity.
  - apply elem_of_cons. right. apply elem_of_cons. by left.
Defined.

(** The scroll events of [chat_schedule]: one send and three text frames. *)
Lemma one_scroll_per_append_witness :
  ∃ sys' out,
    run sys_listening chat_schedule = Some (sys', out)
    ∧ scrolls out
      = (fun _ => "messages-end") <$> List.filter appending chat_schedule.
Proof.
  eexists _, _. split; [vm_compute; reflexivity|].
  eapply (one_scroll_per_append sys_listening chat_schedule).
  vm_compute. reflexivity.
Defined.

(** The reset of a reconnect empties a log of two entries. *)
Lemma log_is_extended_or_reset_witness :
  ∃ sys' out,
    step sys_with_history (EvTask 1 Tick) = Some (sys', out)
    ∧ ((∃ m, messages (self sys') = messages (self sys_with_history) ++ [m])
       ∨ messages (self sys') = messages (self sys_with_history)
       ∨ (messages (self sys') = []
          ∧ ∃ j, EvTask 1 Tick = EvTask j Tick
                 ∧ tasks sys_with_history !! j = Some pc_reset)).
Proof.
  eexists _, _. split; [vm_compute; reflexivity|].
  eapply (log_is_extended_or_reset sys_with_history (EvTask 1 Tick)).
  vm_compute. reflexivity.
Defined.

(** What [chat_schedule] sends on [ws1]. *)
Lemma sent_is_what_is_logged_witness :
  ∃ sys' out more,
    run sys_listening chat_schedule = Some (sys', out)
    ∧ messages (self sys') = messages (self sys_listening) ++ more
    ∧ user_texts more = drafts (message_buffer (self sys_listening)) chat_schedule
    ∧ sent out = (fun data => (ws1, data)) <$> user_texts more.
Proof.
  apply (sent_is_what_is_logged sys_listening 0 ws1 (ws_id ws1) chat_schedule);
    reflexivity.
Defined.

(** A page load after [ws1] was opened and closed. *)
Lemma on_load_restores_consistency_witness :
  ∃ sys out,
    run Sys_init (connect_schedule 0 ws1 [Str "hi"]) = Some (sys, out)
    ∧ connected (self sys) = true
    ∧ ∃ sys',
        step sys EvOnLoad = Some (sys', [Delta (self sys')])
        ∧ registry_consistent sys'
        ∧ (connected (self sys') = true
           ↔ _websocket_id (self sys) ≠ ""
             ∧ ∃ i ws,
                 tasks sys !! i = Some (pc_recv ws (_websocket_id (self sys)))
                 ∨ tasks sys !! i
                   = Some (pc_recv_raised ws (_websocket_id (self sys))))
        ∧ ((∃ i, tasks sys !! i = Some (pc_done (_websocket_id (self sys))))
           → connected (self sys') = false).
Proof.
  eexists _, _. split; [vm_compute; reflexivity|]. split; [reflexivity|].
  eapply (on_load_restores_consistency (connect_schedule 0 ws1 [Str "hi"])).
  - refine (bool_decide_unpack _ _). vm_compute. exact I.
  - vm_compute. reflexivity.
Defined.


(** [reconnect_after_loss_schedule] raises the exception of line 49 and
    nothing else; the entry of the lost connection stays, and the second
    task, which is in its loop, can end and remove its own. *)
Lemma del_finds_its_key_witness :
  ∃ sys out,
    run Sys_init reconnect_after_loss_schedule = Some (sys, out)
    ∧ tasks sys = [pc_recv_raised ws1 (ws_id ws1); pc_recv ws2 (ws_id ws2)]
    ∧ raised out = [ConnectionClosedError]
    ∧ (∀ e, e ∈ raised out →
         e = OpenError ∨ e = ConnectionClosed ∨ e = ConnectionClosedError)
    ∧ ∀ i ws id, tasks sys !! i = Some (pc_recv ws id) →
        ∃ sys', step sys (EvTask i EndOfStream) = Some (sys', [])
                ∧ tasks sys' !! i = Some (pc_done id)
                ∧ WEBSOCKETS sys' = delete id (WEBSOCKETS sys).
Proof.
  eexists _, _. split; [vm_compute; reflexivity|]. split; [reflexivity|].
  split; [reflexivity|].
  eapply (del_finds_its_key reconnect_after_loss_schedule).
  - refine (bool_decide_unpack _ _). vm_compute. exact I.
  - vm_compute. reflexivity.
Defined.

(** The two tasks of [sys_same_id] end one after the other. *)
Lemma del_raises_on_shared_id_witness :
  ∃ sys',
    run sys_same_id [EvTask 0 EndOfStream; EvTask 1 EndOfStream]
    = Some (sys', [Uncaught (KeyError (ws_id ws1))])
    ∧ tasks sys' !! 0 = Some (pc_done (ws_id ws1))
    ∧ tasks sys' !! 1 = Some (pc_raised (KeyError (ws_id ws1)))
    ∧ WEBSOCKETS sys' = delete (ws_id ws1) (WEBSOCKETS sys_same_id)
    ∧ self sys' = self sys_same_id.
Proof.
  apply (del_raises_on_shared_id sys_same_id 0 1 ws1 ws1_again (ws_id ws1)).
  - reflexivity.
  - reflexivity.
  - lia.
  - exists ws1_again. reflexivity.
Defined.

(** The form is submitted again in [sys_two_listening] and [ws2] is
    opened; then "late" arrives on [ws1]. *)
Lemma connect_keeps_the_earlier_connection_witness :
  ∃ sys' out,
    run sys_two_listening
      [EvTask 1 Tick; EvTask 1 Tick; EvTask 1 (Handshake (Some ws2));
       EvTask 1 Tick; EvTask 0 (Incoming (Str "late"))]
    = Some (sys', out)
    ∧ tasks sys' !! 0 = Some (pc_recv ws1 (ws_id ws1))
    ∧ tasks sys' !! 1 = Some (pc_recv ws2 (ws_id ws2))
    ∧ WEBSOCKETS sys' = <[ws_id ws2 := ws2]> (WEBSOCKETS sys_two_listening)
    ∧ WEBSOCKETS sys' !! ws_id ws1 = Some ws1
    ∧ connected (self sys') = true
    ∧ _websocket_id (self sys') = ws_id ws2
    ∧ messages (self sys') = [mkMessage server "late"].
Proof.
  apply (connect_keeps_the_earlier_connection sys_two_listening 0 1 ws1 ws2
           (ws_id ws1) "late").
  - reflexivity.
  - reflexivity.
  - reflexivity.
  - discriminate.
Defined.

(** A submit after a connect that failed. *)
Lemma send_while_not_connected_is_dropped_witness :
  ∃ sys out,
    run Sys_init (failed_connect_schedule ++ [EvUpdateMessageBuffer "hello"])
    = Some (sys, out)
    ∧ WEBSOCKETS sys !! _websocket_id (self sys) = None
    ∧ ∃ s',
        send_message (closed sys) (WEBSOCKETS sys) (self sys)
        = (Ret tt, s', [Delta s'; ScrollTo "messages-end"])
        ∧ messages s'
          = messages (self sys) ++ [mkMessage user (message_buffer (self sys))].
Proof.
  eexists _, _. split; [vm_compute; reflexivity|].
  eapply (send_while_not_connected_is_dropped
            (failed_connect_schedule ++ [EvUpdateMessageBuffer "hello"])).
  - refine (bool_decide_unpack _ _). vm_compute. exact I.
  - refine (bool_decide_unpack _ _). vm_compute. exact I.
  - vm_compute. reflexivity.
  - reflexivity.
Defined.

(** [ws1] is listening when the network closes it abnormally. *)
Lemma send_on_a_lost_connection_raises_witness :
  ∃ sys' out,
    run sys_listening_closed [EvTask 0 RecvError; EvOnLoad; EvSendMessage]
    = Some (sys', out)
    ∧ tasks sys' !! 0 = Some (pc_recv_raised ws1 (ws_id ws1))
    ∧ WEBSOCKETS sys' = WEBSOCKETS sys_listening_closed
    ∧ connected (self sys') = true
    ∧ _websocket_id (self sys') = ws_id ws1
    ∧ messages (self sys')
      = messages (self sys_listening_closed)
        ++ [mkMessage user (message_buffer (self sys_listening_closed))]
    ∧ sent out = [(ws1, message_buffer (self sys_listening_closed))]
    ∧ raised out = [ConnectionClosedError; ConnectionClosed].
Proof.
  apply (send_on_a_lost_connection_raises sys_listening_closed 0 ws1).
  - reflexivity.
  - reflexivity.
  - reflexivity.
  - discriminate.
  - refine (bool_decide_unpack _ _). vm_compute. exact I.
Defined.
